(** * markupflow: a shallow embedding of [src/markupflow/__init__.py]

    The development follows the layout of the Python module: escaping
    primitives, attribute-name conversion, the [_TagContext] state machine
    and the [Fragment] builder.

    Modelling choices.
    - Python [str] is embedded as [string]; the characters considered are
      the ASCII ones (for them [\w] is [[A-Za-z0-9_]] and [str.lower] only
      touches [A]..[Z]).
    - [AttrValue = str | int | float | bool | None] is an inductive type;
      a [float] is given by the two things the code asks of it: the text
      [str] prints for it, and whether it is different from zero.
    - [_convert_attr_name] is modelled twice: as the function of the name
      that it computes, and with its cache; the two are shown to agree.
    - A Python [dict] keeps insertion order, and the order decides the
      rendered text: it is an association list updated in place.
    - [_TagContext] objects are shared between the caller's handle and the
      fragment's [_context_stack]; they live in a store and are referred
      to by index.
    - Exceptions are results of a small state-and-exception monad; the
      state that remains after a [raise] is part of the result. *)

From Stdlib Require Import ZArith Lia Ascii String DecimalString.
From stdpp Require Import base list strings gmap.

Open Scope string_scope.
Open Scope list_scope.
Open Scope nat_scope.

(** ** Characters and strings *)

Module Str.

Definition underscore : ascii := "_"%char.
Definition hyphen : ascii := "-"%char.
Definition dquote : ascii := "034"%char.
Definition squote : ascii := "'"%char.

(** One-character string. *)
Definition chr (c : ascii) : string := String c EmptyString.

(** [\w] of the [re] module, on ASCII characters. *)
Definition is_word (c : ascii) : bool :=
  let n := N_of_ascii c in
  ((48 <=? n) && (n <=? 57) || (65 <=? n) && (n <=? 90) ||
   (97 <=? n) && (n <=? 122) || (n =? 95))%N.

(** [str.lower], on ASCII characters. *)
Definition lower_char (c : ascii) : ascii :=
  let n := N_of_ascii c in
  if ((65 <=? n) && (n <=? 90))%N then ascii_of_N (n + 32) else c.

Fixpoint lower (s : string) : string :=
  match s with
  | EmptyString => EmptyString
  | String c r => String (lower_char c) (lower r)
  end.

(** [s.endswith(chr c)] *)
Fixpoint endswith (s : string) (c : ascii) : bool :=
  match s with
  | EmptyString => false
  | String a EmptyString => Ascii.eqb a c
  | String _ r => endswith r c
  end.

(** [s[:-1]] *)
Fixpoint drop_last (s : string) : string :=
  match s with
  | EmptyString => EmptyString
  | String _ EmptyString => EmptyString
  | String a r => String a (drop_last r)
  end.

(** [s.replace(chr c, r)] for a one-character pattern. *)
Fixpoint replace (c : ascii) (r : string) (s : string) : string :=
  match s with
  | EmptyString => EmptyString
  | String a t => (if Ascii.eqb a c then r else chr a) +:+ replace c r t
  end.

(** [sep.join(l)] *)
Definition join (sep : string) (l : list string) : string := String.concat sep l.

(** [c in s] for a character. *)
Fixpoint contains (c : ascii) (s : string) : bool :=
  match s with
  | EmptyString => false
  | String a t => Ascii.eqb a c || contains c t
  end.

(** [str(z)] for an [int]. *)
Definition of_int (z : Z) : string := NilZero.string_of_int (Z.to_int z).

End Str.

(** ** Escaping *)

(** [html.escape(s, quote)] of the standard library: the replacements are
    made one after the other, the ampersand first. *)
Definition html_escape (s : string) (quote : bool) : string :=
  let s := Str.replace "&" "&amp;" s in
  let s := Str.replace "<" "&lt;" s in
  let s := Str.replace ">" "&gt;" s in
  if quote then
    let s := Str.replace Str.dquote "&quot;" s in
    Str.replace Str.squote "&#x27;" s
  else s.

(** ** Attribute values *)

Inductive AttrValue : Type :=
  | VNone
  | VStr (s : string)
  | VInt (z : Z)
  | VFloat (text : string) (nonzero : bool)
  | VBool (b : bool).

(** [str(v)] *)
Definition py_str (v : AttrValue) : string :=
  match v with
  | VNone => "None"
  | VStr s => s
  | VInt z => Str.of_int z
  | VFloat text _ => text
  | VBool true => "True"
  | VBool false => "False"
  end.

(** [bool(v)]: the truth value Python gives to [v]. *)
Definition truthy (v : AttrValue) : bool :=
  match v with
  | VNone => false
  | VStr s => negb (String.eqb s "")
  | VInt z => negb (z =? 0)%Z
  | VFloat _ nonzero => nonzero
  | VBool b => b
  end.

Definition is_None (v : AttrValue) : bool :=
  match v with VNone => true | _ => false end.

Definition _escape_attr_value (value : AttrValue) : string :=
  if is_None value then "" else html_escape (py_str value) true.

Definition _escape_text (text : AttrValue) : string :=
  if is_None text then "" else html_escape (py_str text) false.

(** ** Attribute-name conversion *)

(** [_ATTR_NAME_PATTERN.sub(r"\1-\2", name)] with the pattern
    [(\w)_(\w)]: the matches are found from left to right and do not
    overlap, so the scan resumes after the third character of a match. *)
Fixpoint _ATTR_NAME_PATTERN_sub (name : string) : string :=
  match name with
  | EmptyString => EmptyString
  | String a t =>
      match t with
      | String b (String c r) =>
          if Str.is_word a && Ascii.eqb b Str.underscore && Str.is_word c
          then String a (String Str.hyphen (String c (_ATTR_NAME_PATTERN_sub r)))
          else String a (_ATTR_NAME_PATTERN_sub t)
      | _ => String a (_ATTR_NAME_PATTERN_sub t)
      end
  end.

(** [_convert_attr_name], as a function of the name: the value the three
    branches compute. *)
Definition _convert_attr_name (name : string) : string :=
  if String.eqb name "class_" || String.eqb name "classes" then "class"
  else if Str.endswith name Str.underscore then Str.drop_last name
  else _ATTR_NAME_PATTERN_sub name.

(** The function as it is written, the module-level [_ATTR_NAME_CACHE]
    passed in and out: the value is computed on a miss only, and the
    answer is read from the cache.  [cached_conversion_agrees] below
    shows that this is the function above; the rest of the development
    uses that one. *)
Definition _convert_attr_name_cached
    (name : string) (_ATTR_NAME_CACHE : gmap string string)
    : string * gmap string string :=
  let cache :=
    match _ATTR_NAME_CACHE !! name with
    | None => <[name := _convert_attr_name name]> _ATTR_NAME_CACHE
    | Some _ => _ATTR_NAME_CACHE
    end in
  (match cache !! name with Some r => r | None => "" end, cache).

(** Every entry of the cache is the conversion of its key. *)
Definition cache_ok (cache : gmap string string) : Prop :=
  ∀ k v, cache !! k = Some v → v = _convert_attr_name k.

(** ** Dictionaries

    [dict[str, AttrValue]]: the entries in insertion order.  Assigning to
    a key that is present replaces the value where it stands; a new key
    goes to the end. *)

Module Dict.

Definition t : Type := list (string * AttrValue).

Definition keys (d : t) : list string := map fst d.

(** [k in d] *)
Definition mem (d : t) (k : string) : bool :=
  existsb (fun kv => String.eqb (fst kv) k) d.

(** The value found under [k], if any. *)
Fixpoint lookup (d : t) (k : string) : option AttrValue :=
  match d with
  | [] => None
  | (k', v) :: r => if String.eqb k' k then Some v else lookup r k
  end.

(** [d.get(k)]: [None] when the key is missing. *)
Definition get (d : t) (k : string) : AttrValue :=
  match lookup d k with Some v => v | None => VNone end.

(** [d[k] = v] *)
Fixpoint set (d : t) (k : string) (v : AttrValue) : t :=
  match d with
  | [] => [(k, v)]
  | (k', v') :: r =>
      if String.eqb k' k then (k', v) :: r else (k', v') :: set r k v
  end.

(** What holds of every Python dict: no key occurs twice. *)
Definition wf (d : t) : Prop := NoDup (keys d).

End Dict.

(** [a or b] *)
Definition py_or (a b : AttrValue) : AttrValue := if truthy a then a else b.

(** ** Objects and state *)

(** The slots of a [_TagContext], but for [_fragment]: the contexts of
    the store below all belong to the one fragment of the state. *)
Record _TagContext : Type := mk_TagContext {
  _tag_name : string;
  _self_closing : bool;
  _attrs : Dict.t;
  _opened : bool
}.

Definition handle : Type := nat.

(** A [Fragment] ([_parts], [_tag_stack], [_context_stack], each in the
    order of the Python list: the top of a stack is its last element)
    together with the store of the contexts created for it. *)
Record World : Type := mkWorld {
  _parts : list string;
  _tag_stack : list string;
  _context_stack : list handle;
  heap : list _TagContext
}.

(** [Fragment.__init__] *)
Definition __init__ : World :=
  {| _parts := []; _tag_stack := []; _context_stack := []; heap := [] |}.

Inductive Error : Type :=
  | TagAlreadyOpenedError
  | NoTagContextError
  | UnclosedTagsError
  | IndexError
  | DanglingHandle.
  (* [DanglingHandle] is no Python exception: it is the answer of the
     model to an index that [tag] never returned. *)

Inductive Result (A : Type) : Type :=
  | Return (a : A)
  | Raise (e : Error).
Arguments Return {A} a.
Arguments Raise {A} e.

(** Computations that read and change the state and may raise. *)
Definition M (A : Type) : Type := World → Result A * World.

Definition ret {A} (a : A) : M A := λ w, (Return a, w).
Definition bind {A B} (m : M A) (f : A → M B) : M B := λ w,
  match m w with
  | (Return a, w') => f a w'
  | (Raise e, w') => (Raise e, w')
  end.

Declare Scope M_scope.
Delimit Scope M_scope with M.
Bind Scope M_scope with M.
Notation "x ← y ; z" := (bind y (λ x : _, z))
  (at level 20, y at level 100, z at level 200, only parsing) : M_scope.
Notation "x ;; z" := (bind x (λ _, z))
  (at level 100, z at level 200, only parsing, right associativity) : M_scope.
Open Scope M_scope.

Definition raise {A} (e : Error) : M A := λ w, (Raise e, w).

Definition is_raise {A} (r : Result A) : bool :=
  match r with Raise _ => true | Return _ => false end.

Definition set_parts (p : list string) (w : World) : World :=
  {| _parts := p; _tag_stack := _tag_stack w;
     _context_stack := _context_stack w; heap := heap w |}.
Definition set_tag_stack (s : list string) (w : World) : World :=
  {| _parts := _parts w; _tag_stack := s;
     _context_stack := _context_stack w; heap := heap w |}.
Definition set_context_stack (s : list handle) (w : World) : World :=
  {| _parts := _parts w; _tag_stack := _tag_stack w;
     _context_stack := s; heap := heap w |}.
Definition set_heap (h : list _TagContext) (w : World) : World :=
  {| _parts := _parts w; _tag_stack := _tag_stack w;
     _context_stack := _context_stack w; heap := h |}.

Definition set_attrs (a : Dict.t) (c : _TagContext) : _TagContext :=
  {| _tag_name := _tag_name c; _self_closing := _self_closing c;
     _attrs := a; _opened := _opened c |}.
Definition set_opened (o : bool) (c : _TagContext) : _TagContext :=
  {| _tag_name := _tag_name c; _self_closing := _self_closing c;
     _attrs := _attrs c; _opened := o |}.

(** Reading and writing the object behind a handle. *)
Definition deref (h : handle) : M _TagContext := λ w,
  match heap w !! h with
  | Some c => (Return c, w)
  | None => (Raise DanglingHandle, w)
  end.
Definition assign (h : handle) (c : _TagContext) : M unit := λ w,
  (Return tt, set_heap (<[h := c]> (heap w)) w).
Definition alloc (c : _TagContext) : M handle := λ w,
  (Return (length (heap w)), set_heap (heap w ++ [c]) w).

(** [self._parts.append(s)] *)
Definition parts_append (s : string) : M unit := λ w,
  (Return tt, set_parts (_parts w ++ [s]) w).

(** [list.pop()]: the last element, [IndexError] on an empty list. *)
Definition tag_stack_pop : M string := λ w,
  match last (_tag_stack w) with
  | Some x => (Return x, set_tag_stack (removelast (_tag_stack w)) w)
  | None => (Raise IndexError, w)
  end.
Definition context_stack_pop : M handle := λ w,
  match last (_context_stack w) with
  | Some x => (Return x, set_context_stack (removelast (_context_stack w)) w)
  | None => (Raise IndexError, w)
  end.

(** ** [_TagContext] *)

Module TagContext.

(** One rendered attribute: [f'{_convert_attr_name(k)}="{_escape_attr_value(v)}"'] *)
Definition attr_item (kv : string * AttrValue) : string :=
  _convert_attr_name (fst kv) +:+ "=" +:+ Str.chr Str.dquote +:+
  _escape_attr_value (snd kv) +:+ Str.chr Str.dquote.

Definition not_None (kv : string * AttrValue) : bool := negb (is_None (snd kv)).

(** [attr_str] of [_ensure_opened]: the test is on the dict being empty,
    the generator skips the [None] values. *)
Definition attr_str (attrs : Dict.t) : string :=
  match attrs with
  | [] => ""
  | _ => " " +:+ Str.join " " (map attr_item (List.filter not_None attrs))
  end.

(** The text [_ensure_opened] appends for a context. *)
Definition opening_tag (c : _TagContext) : string :=
  if _self_closing c
  then "<" +:+ _tag_name c +:+ attr_str (_attrs c) +:+ " />"
  else "<" +:+ _tag_name c +:+ attr_str (_attrs c) +:+ ">".

Definition _ensure_opened (self : handle) : M unit :=
  c ← deref self;
  if negb (_opened c) then
    assign self (set_opened true c);;
    parts_append (opening_tag c)
  else ret tt.

Definition add_attr (self : handle) (name : string) (value : AttrValue) : M unit :=
  c ← deref self;
  if _opened c then raise TagAlreadyOpenedError
  else assign self (set_attrs (Dict.set (_attrs c) name value) c).

Definition add_class (self : handle) (class_name : string) : M unit :=
  c ← deref self;
  if _opened c then raise TagAlreadyOpenedError
  else
    let existing_class :=
      py_or (Dict.get (_attrs c) "class_") (Dict.get (_attrs c) "class") in
    if truthy existing_class then
      assign self (set_attrs
        (Dict.set (_attrs c) "class_"
           (VStr (py_str existing_class +:+ " " +:+ class_name))) c)
    else
      assign self (set_attrs (Dict.set (_attrs c) "class_" (VStr class_name)) c).

Definition __enter__ (self : handle) : M handle :=
  c ← deref self;
  (if negb (_self_closing c) then
     (λ w, (Return tt, set_tag_stack (_tag_stack w ++ [_tag_name c]) w));;
     (λ w, (Return tt, set_context_stack (_context_stack w ++ [self]) w))
   else _ensure_opened self);;
  ret self.

Definition __exit__ (self : handle) : M unit :=
  c ← deref self;
  if negb (_self_closing c) then
    _ensure_opened self;;
    closing_tag ← tag_stack_pop;
    parts_append ("</" +:+ closing_tag +:+ ">");;
    context_stack_pop;;
    ret tt
  else ret tt.

End TagContext.

(** [with cm as h: body]: [__exit__] runs however the body ends; it
    returns [None], so an exception of the body is raised again after it,
    unless [__exit__] itself raises. *)
Definition with_ {A} (cm : M handle) (body : handle → M A) : M A :=
  h ← cm;
  h ← TagContext.__enter__ h;
  λ w,
    let (r, w1) := body h w in
    match TagContext.__exit__ h w1 with
    | (Return _, w2) => (r, w2)
    | (Raise e, w2) => (Raise e, w2)
    end.

(** ** [Fragment] *)

Module Fragment.

(** The names of the elements that take no closing tag. *)
Definition SELF_CLOSING : gset string :=
  list_to_set ["area"; "base"; "br"; "col"; "embed"; "hr"; "img"; "input";
               "link"; "meta"; "param"; "source"; "track"; "wbr"].

(** [if self._context_stack: self._context_stack[-1]._ensure_opened()] *)
Definition open_current : M unit := λ w,
  match last (_context_stack w) with
  | Some h => TagContext._ensure_opened h w
  | None => (Return tt, w)
  end.

(** [tag(tag_name, **attrs)]; [attrs.copy()] is the dict itself, values
    being immutable. *)
Definition tag (tag_name : string) (attrs : Dict.t) : M handle :=
  open_current;;
  let self_closing := bool_decide (Str.lower tag_name ∈ SELF_CLOSING) in
  alloc {| _tag_name := tag_name; _self_closing := self_closing;
           _attrs := attrs; _opened := false |}.

Definition text (content : AttrValue) : M unit :=
  if negb (is_None content) then
    open_current;;
    parts_append (_escape_text content)
  else ret tt.

Definition raw (content : AttrValue) : M unit :=
  if negb (is_None content) then
    open_current;;
    parts_append (py_str content)
  else ret tt.

Definition attr (name : string) (value : AttrValue) : M unit := λ w,
  match last (_context_stack w) with
  | None => (Raise NoTagContextError, w)
  | Some h => TagContext.add_attr h name value w
  end.

Definition classes (class_name : string) : M unit := λ w,
  match last (_context_stack w) with
  | None => (Raise NoTagContextError, w)
  | Some h => TagContext.add_class h class_name w
  end.

Definition render : M string := λ w,
  match _tag_stack w with
  | _ :: _ => (Raise UnclosedTagsError, w)
  | [] => (Return (Str.join "" (_parts w)), w)
  end.

Definition clear : M unit := λ w,
  (Return tt, set_context_stack [] (set_tag_stack [] (set_parts [] w))).

Definition __str__ : M string := render.

(** The argument of [fragment]: this very fragment, or another one, of
    which only [_parts] and [_tag_stack] are read. *)
Inductive FragmentRef : Type :=
  | Self
  | Other (o : World).

Definition fragment (other : FragmentRef) : M unit :=
  open_current;;
  s ← match other with
      | Self => render
      | Other o => λ w, (fst (render o), w)
      end;
  parts_append s.

(** Some of the shortcuts. *)
Definition div (attrs : Dict.t) : M handle := tag "div" attrs.
Definition span (attrs : Dict.t) : M handle := tag "span" attrs.
Definition img (attrs : Dict.t) : M unit := with_ (tag "img" attrs) (λ _, ret tt).
Definition br (attrs : Dict.t) : M unit := with_ (tag "br" attrs) (λ _, ret tt).
Definition hr (attrs : Dict.t) : M unit := with_ (tag "hr" attrs) (λ _, ret tt).

End Fragment.

(** ** Programs

    The operations a caller has on a fragment and on the handles [tag]
    gave it.  [step] keeps the state an operation leaves, also when it
    raised: the caller may catch the exception and go on. *)

Inductive Op : Type :=
  | OpTag (tag_name : string) (attrs : Dict.t)
  | OpEnter (h : handle)
  | OpExit (h : handle)
  | OpAddAttr (h : handle) (name : string) (value : AttrValue)
  | OpAddClass (h : handle) (class_name : string)
  | OpText (content : AttrValue)
  | OpRaw (content : AttrValue)
  | OpAttr (name : string) (value : AttrValue)
  | OpClasses (class_name : string)
  | OpRender
  | OpStr
  | OpClear
  | OpFragment (other : Fragment.FragmentRef)
  | OpImg (attrs : Dict.t)
  | OpBr (attrs : Dict.t)
  | OpHr (attrs : Dict.t).

Definition void {A} (m : M A) : M unit := _ ← m; ret tt.

Definition run_op (o : Op) : M unit :=
  match o with
  | OpTag n a => void (Fragment.tag n a)
  | OpEnter h => void (TagContext.__enter__ h)
  | OpExit h => TagContext.__exit__ h
  | OpAddAttr h n v => TagContext.add_attr h n v
  | OpAddClass h c => TagContext.add_class h c
  | OpText c => Fragment.text c
  | OpRaw c => Fragment.raw c
  | OpAttr n v => Fragment.attr n v
  | OpClasses c => Fragment.classes c
  | OpRender => void Fragment.render
  | OpStr => void Fragment.__str__
  | OpClear => Fragment.clear
  | OpFragment f => Fragment.fragment f
  | OpImg a => Fragment.img a
  | OpBr a => Fragment.br a
  | OpHr a => Fragment.hr a
  end.

Definition step (o : Op) (w : World) : World := snd (run_op o w).

Fixpoint exec (ops : list Op) (w : World) : World :=
  match ops with
  | [] => w
  | o :: r => exec r (step o w)
  end.

(** A program run on a fresh fragment. *)
Definition run {A} (m : M A) : Result A * World := m __init__.

(** ** Predicates of the statements *)

(** The two stacks of a fragment have the same height. *)
Definition balanced (w : World) : Prop :=
  length (_tag_stack w) = length (_context_stack w).

(** Every handle on the context stack refers to a context of the store. *)
Definition handles_ok (w : World) : Prop :=
  Forall (λ h, h < length (heap w)) (_context_stack w).

(** The innermost open context exists and is still pending. *)
Definition current_pending (w : World) : bool :=
  match last (_context_stack w) with
  | Some h =>
      match heap w !! h with
      | Some c => negb (_opened c)
      | None => false
      end
  | None => false
  end.

(** What an operation may leave of the stacks and of the store: [w']
    has the stacks of [w], and a store at least as long. *)
Definition frame_ok (w w' : World) : Prop :=
  _tag_stack w' = _tag_stack w ∧
  _context_stack w' = _context_stack w ∧
  length (heap w) ≤ length (heap w').

Definition keeps_stacks {A} (m : M A) : Prop := ∀ w, frame_ok w (snd (m w)).

Definition preserves {A} (P : World → Prop) (m : M A) : Prop :=
  ∀ w, P w → P (snd (m w)).

(** The state after a pending context [c] at [h] wrote its opening tag. *)
Definition materialized (h : handle) (c : _TagContext) (w : World) : World :=
  set_parts (_parts w ++ [TagContext.opening_tag c])
    (set_heap (<[h := set_opened true c]> (heap w)) w).

(** The context [tag] creates. *)
Definition new_context (tag_name : string) (attrs : Dict.t) : _TagContext :=
  {| _tag_name := tag_name;
     _self_closing := bool_decide (Str.lower tag_name ∈ Fragment.SELF_CLOSING);
     _attrs := attrs; _opened := false |}.

(** The flag of a context is the one [tag] computes from its name. *)
Definition flag_ok (c : _TagContext) : Prop :=
  _self_closing c = bool_decide (Str.lower (_tag_name c) ∈ Fragment.SELF_CLOSING).

(** Every context has the flag of its name, and no name on the tag stack
    (the names the closing tags are written from) is one of the
    self-closing ones. *)
Definition void_inv (w : World) : Prop :=
  Forall flag_ok (heap w) ∧
  Forall (λ t, Str.lower t ∉ Fragment.SELF_CLOSING) (_tag_stack w).

(** *** Two runs whose stores differ by one unused context

    [shift n] names, in a store with an extra context at index [n], the
    context that [h] names in the store without it. *)
Definition shift (n : nat) (h : handle) : handle :=
  if decide (h < n) then h else S h.

Definition shift_op (n : nat) (o : Op) : Op :=
  match o with
  | OpEnter h => OpEnter (shift n h)
  | OpExit h => OpExit (shift n h)
  | OpAddAttr h name value => OpAddAttr (shift n h) name value
  | OpAddClass h class_name => OpAddClass (shift n h) class_name
  | _ => o
  end.

(** [w'] is [w] with one more context, at index [n], that no stack
    refers to. *)
Definition sim (n : nat) (w w' : World) : Prop :=
  _parts w' = _parts w ∧
  _tag_stack w' = _tag_stack w ∧
  _context_stack w' = map (shift n) (_context_stack w) ∧
  n ≤ length (heap w) ∧
  length (heap w') = S (length (heap w)) ∧
  ∀ h, heap w' !! shift n h = heap w !! h.

Definition rel_result {A} (R : A → A → Prop) (r r' : Result A) : Prop :=
  match r, r' with
  | Return a, Return a' => R a a'
  | Raise e, Raise e' => e = e'
  | _, _ => False
  end.

Definition msim (n : nat) {A} (R : A → A → Prop) (m m' : M A) : Prop :=
  ∀ w w', sim n w w' →
    rel_result R (fst (m w)) (fst (m' w')) ∧ sim n (snd (m w)) (snd (m' w')).

(** What a caller sees of a program: for each operation whether it
    returned or what it raised, the parts and the tag stack after it
    (of which the text [render] returns is a function). *)
Fixpoint trace (ops : list Op) (w : World)
    : list (Result unit * list string * list string) :=
  match ops with
  | [] => []
  | o :: r =>
      (fst (run_op o w), _parts (step o w), _tag_stack (step o w))
        :: trace r (step o w)
  end.

(** A string between double quotes. *)
Definition quoted (s : string) : string :=
  Str.chr Str.dquote +:+ s +:+ Str.chr Str.dquote.

(** ** Further notions of the statements *)

(** A string translated character by character. *)
Fixpoint translate (f : ascii → string) (s : string) : string :=
  match s with
  | EmptyString => EmptyString
  | String c r => f c +:+ translate f r
  end.

(** What [html.escape] makes of one character. *)
Definition escape_char (quote : bool) (c : ascii) : string :=
  if Ascii.eqb c "&" then "&amp;"
  else if Ascii.eqb c "<" then "&lt;"
  else if Ascii.eqb c ">" then "&gt;"
  else if quote && Ascii.eqb c Str.dquote then "&quot;"
  else if quote && Ascii.eqb c Str.squote then "&#x27;"
  else Str.chr c.

(** The characters with a meaning in markup text, and in a quoted
    attribute value. *)
Definition plain_text (s : string) : bool :=
  negb (Str.contains "&" s) && negb (Str.contains "<" s) &&
  negb (Str.contains ">" s).

(** [w'] has the parts of [w], and possibly more after them. *)
Definition grows (w w' : World) : Prop :=
  ∃ ext, _parts w' = _parts w ++ ext.

Definition appends {A} (m : M A) : Prop := ∀ w, grows w (snd (m w)).

(** The opening tag that the innermost open context still has to write. *)
Definition pending_text (w : World) : string :=
  match last (_context_stack w) with
  | Some h =>
      match heap w !! h with
      | Some c => if _opened c then "" else TagContext.opening_tag c
      | None => ""
      end
  | None => ""
  end.

(** The text written so far, the pending opening tag included. *)
Definition out (w : World) : string :=
  Str.join "" (_parts w) +:+ pending_text w.

(** The context at [h] is the context [c] seen earlier: same name and
    flag, and the very same context if [c] had its tag written. *)
Definition same_context (h : handle) (c : _TagContext) (w : World) : Prop :=
  ∃ c', heap w !! h = Some c' ∧
        _tag_name c' = _tag_name c ∧ _self_closing c' = _self_closing c ∧
        (_opened c = true → c' = c).

(** [w'] is [w] after a well-nested piece of program that wrote [s]:
    the stacks are back, the handles are valid, the text grew by [s], and
    every context of [w] is kept. *)
Definition extends (w w' : World) (s : string) : Prop :=
  _tag_stack w' = _tag_stack w ∧
  _context_stack w' = _context_stack w ∧
  handles_ok w' ∧
  length (heap w) ≤ length (heap w') ∧
  out w' = out w +:+ s ∧
  ∀ k c, heap w !! k = Some c → same_context k c w'.

(** The two stacks tell of the same open elements: each name on the tag
    stack is the name of the context at the same height of the context
    stack, and that context is not self-closing. *)
Definition stacks_agree (w : World) : Prop :=
  Forall2 (λ t h, ∃ c, heap w !! h = Some c ∧ _tag_name c = t ∧
                       _self_closing c = false)
          (_tag_stack w) (_context_stack w).

(** *** Documents written with nested [with] blocks

    The shape of a caller that only nests [with doc.tag(...)] blocks and
    calls [text] and [raw]; [build] is that caller, [serialize] the text
    one expects of it. *)
#[local] Unset Elimination Schemes.
Inductive Node : Type :=
  | Text (content : AttrValue)
  | Raw (content : AttrValue)
  | Elem (tag_name : string) (attrs : Dict.t) (children : list Node).
#[local] Set Elimination Schemes.

Fixpoint build (n : Node) : M unit :=
  match n with
  | Text c => Fragment.text c
  | Raw c => Fragment.raw c
  | Elem name attrs children =>
      with_ (Fragment.tag name attrs) (λ _,
        (fix go (l : list Node) : M unit :=
           match l with
           | [] => ret tt
           | x :: r => build x;; go r
           end) children)
  end.

Fixpoint build_all (l : list Node) : M unit :=
  match l with
  | [] => ret tt
  | x :: r => build x;; build_all r
  end.

Fixpoint serialize (n : Node) : string :=
  match n with
  | Text c => _escape_text c
  | Raw c => if is_None c then "" else py_str c
  | Elem name attrs children =>
      let inner :=
        (fix go (l : list Node) : string :=
           match l with
           | [] => ""
           | x :: r => serialize x +:+ go r
           end) children in
      if bool_decide (Str.lower name ∈ Fragment.SELF_CLOSING)
      then "<" +:+ name +:+ TagContext.attr_str attrs +:+ " />" +:+ inner
      else "<" +:+ name +:+ TagContext.attr_str attrs +:+ ">" +:+ inner +:+
           "</" +:+ name +:+ ">"
  end.

Fixpoint serialize_all (l : list Node) : string :=
  match l with
  | [] => ""
  | x :: r => serialize x +:+ serialize_all r
  end.

(** Two strings of the same length that differ only where the first has
    an underscore and the second a hyphen. *)
Fixpoint same_or_hyphen (s t : string) : bool :=
  match s, t with
  | EmptyString, EmptyString => true
  | String a r, String b u =>
      (Ascii.eqb a b || Ascii.eqb a Str.underscore && Ascii.eqb b Str.hyphen)
      && same_or_hyphen r u
  | _, _ => false
  end.

(** * Properties *)

(** ** Conversion of names and escaping on examples *)

Example convert_data_value : _convert_attr_name "data_value" = "data-value".
Proof. reflexivity. Qed.

Example convert_aria_label : _convert_attr_name "aria_label" = "aria-label".
Proof. reflexivity. Qed.

Example convert_class_ : _convert_attr_name "class_" = "class".
Proof. reflexivity. Qed.

Example convert_classes : _convert_attr_name "classes" = "class".
Proof. reflexivity. Qed.

Example convert_for_ : _convert_attr_name "for_" = "for".
Proof. reflexivity. Qed.

Example escape_text_example :
  _escape_text (VStr "Hello & <welcome>") = "Hello &amp; &lt;welcome&gt;".
Proof. reflexivity. Qed.

Example escape_int_example : _escape_attr_value (VInt (-12)) = "-12".
Proof. reflexivity. Qed.

(** ** Attribute-name conversion *)

Section Conversion.

Local Abbreviation us := Str.underscore.

(** The cache does not change what the conversion answers. *)
Lemma cached_conversion_agrees name (cache : gmap string string) :
  cache_ok cache →
  fst (_convert_attr_name_cached name cache) = _convert_attr_name name ∧
  cache_ok (snd (_convert_attr_name_cached name cache)).
Proof.
  intros Hc. unfold _convert_attr_name_cached.
  destruct (cache !! name) as [v|] eqn:E; simpl.
  - rewrite E. split; [by apply Hc|done].
  - rewrite lookup_insert_eq. split; [done|].
    intros k v. destruct (decide (k = name)) as [->|Hne].
    + rewrite lookup_insert_eq. congruence.
    + rewrite lookup_insert_ne by done. apply Hc.
Qed.

Lemma cache_ok_empty : cache_ok ∅.
Proof. intros k v. by rewrite lookup_empty. Qed.

Lemma endswith_contains s c : Str.endswith s c = true → Str.contains c s = true.
Proof.
  induction s as [|a t IH]; simpl; [done|].
  destruct t as [|b r].
  - intros ->. done.
  - intros H. rewrite (IH H). apply orb_true_r.
Qed.

(** Without an underscore the pattern matches nowhere. *)
Lemma sub_no_underscore s :
  Str.contains us s = false → _ATTR_NAME_PATTERN_sub s = s.
Proof.
  induction s as [|a t IH]; [done|].
  intros H. simpl in H. apply orb_false_elim in H as [_ Ht].
  specialize (IH Ht).
  destruct t as [|b [|c r]].
  - done.
  - done.
  - assert (Hb : Ascii.eqb b us = false).
    { simpl in Ht. by apply orb_false_elim in Ht as [? _]. }
    change (_ATTR_NAME_PATTERN_sub (String a (String b (String c r)))) with
      (if Str.is_word a && Ascii.eqb b us && Str.is_word c
       then String a (String Str.hyphen (String c (_ATTR_NAME_PATTERN_sub r)))
       else String a (_ATTR_NAME_PATTERN_sub (String b (String c r)))).
    rewrite Hb, andb_false_r. simpl andb. cbv iota. by rewrite IH.
Qed.

(** The names the conversion leaves as they are. *)
Lemma convert_fixed m :
  Str.contains us m = false → m ≠ "classes" → _convert_attr_name m = m.
Proof.
  intros Hu Hc. unfold _convert_attr_name.
  destruct (String.eqb m "class_") eqn:E1.
  { apply String.eqb_eq in E1. subst m. discriminate Hu. }
  destruct (String.eqb m "classes") eqn:E2.
  { apply String.eqb_eq in E2. contradiction. }
  simpl orb. cbv iota.
  destruct (Str.endswith m us) eqn:E3.
  { apply endswith_contains in E3. congruence. }
  by apply sub_no_underscore.
Qed.

End Conversion.

(** C3 (as amended): a second conversion changes nothing whenever the
    first one left no underscore and did not produce the alias
    [classes]. *)
Theorem C3_convert_idempotent_without_filler (n : string) :
  Str.contains Str.underscore (_convert_attr_name n) = false →
  _convert_attr_name n ≠ "classes" →
  _convert_attr_name (_convert_attr_name n) = _convert_attr_name n.
Proof. apply convert_fixed. Qed.

Lemma C3_convert_idempotent_witness :
  _convert_attr_name (_convert_attr_name "data_value") = _convert_attr_name "data_value".
Proof.
  apply (C3_convert_idempotent_without_filler "data_value").
  - reflexivity.
  - discriminate.
Defined.

(** C3 (as stated) fails: only one trailing underscore is removed at a
    time, so [a__] goes to [a_], and [a_] goes to [a]. *)
Lemma C3_convert_not_idempotent :
  _convert_attr_name "a__" = "a_" ∧
  _convert_attr_name (_convert_attr_name "a__") = "a" ∧
  _convert_attr_name (_convert_attr_name "a__") ≠ _convert_attr_name "a__".
Proof. split; [reflexivity|]. split; [reflexivity|discriminate]. Qed.

(** ** The opening tag *)

Section OpeningTag.

Import TagContext.

Lemma filter_not_None_idem (attrs : Dict.t) :
  List.filter not_None (List.filter not_None attrs) = List.filter not_None attrs.
Proof.
  induction attrs as [|kv r IH]; simpl; [done|].
  destruct (not_None kv) eqn:E; simpl; [rewrite E; by f_equal | done].
Qed.

Lemma filter_not_None_nil (attrs : Dict.t) :
  List.filter not_None attrs = [] ↔ forallb (λ kv, is_None (snd kv)) attrs = true.
Proof.
  induction attrs as [|kv r IH]; simpl; [done|].
  unfold not_None at 1. destruct (is_None (snd kv)); simpl; [done|].
  split; discriminate.
Qed.

(** Every rendered attribute comes from an entry whose value is not
    [None], under the converted name. *)
Lemma rendered_items_not_None (attrs : Dict.t) (s : string) :
  s ∈ map attr_item (List.filter not_None attrs) →
  ∃ k v, (k, v) ∈ attrs ∧ v ≠ VNone ∧
         s = _convert_attr_name k +:+ "=" +:+ quoted (_escape_attr_value v).
Proof.
  intros Hs. apply list_elem_of_In, in_map_iff in Hs as ([k v] & <- & Hin).
  apply filter_In in Hin as [Hin Hn].
  exists k, v. split; [by apply list_elem_of_In|]. split; [|done].
  intros ->. discriminate Hn.
Qed.

End OpeningTag.

(** C2 (as amended): the entries whose value is [None] contribute no
    text to the opening tag, which is the tag of the dict without them,
    unless the dict is not empty and all its values are [None]: then one
    space stays between the tag name and the closing bracket. *)
Theorem C2_none_attributes_omitted (c : _TagContext) :
  let kept := List.filter TagContext.not_None (_attrs c) in
  TagContext.opening_tag c =
    match _attrs c, kept with
    | _ :: _, [] =>
        "<" +:+ _tag_name c +:+ " " +:+ (if _self_closing c then " />" else ">")
    | _, _ => TagContext.opening_tag (set_attrs kept c)
    end.
Proof.
  intros kept. unfold TagContext.opening_tag. simpl.
  destruct (_attrs c) as [|kv r] eqn:Ea.
  - subst kept. simpl. done.
  - destruct kept as [|kv' r'] eqn:Ek.
    + unfold TagContext.attr_str. subst kept. rewrite Ek. simpl.
      by destruct (_self_closing c).
    + assert (Hk : TagContext.attr_str (kv :: r) = TagContext.attr_str (kv' :: r')).
      { unfold TagContext.attr_str. rewrite <- Ek. subst kept.
        by rewrite filter_not_None_idem. }
      by rewrite Hk.
Qed.

(** C2 (as stated) fails: a [div] whose only attribute is [None] is
    opened with [<div >], as in [test_none_content_handling]. *)
Lemma C2_only_none_attribute_leaves_space :
  TagContext.opening_tag
    {| _tag_name := "div"; _self_closing := false;
       _attrs := [("title", VNone)]; _opened := false |} = "<div >" ∧
  fst (run (with_ (Fragment.tag "div" []) (λ _,
         Fragment.text VNone;;
         Fragment.attr "title" VNone;;
         Fragment.text (VStr "Some text"));;
       Fragment.render)) = Return "<div >Some text</div>" ∧
  "<div >" ≠ "<div>".
Proof. split; [reflexivity|]. split; [reflexivity|discriminate]. Qed.

(** ** [render] and [__str__] *)

(** C5: [render] raises [UnclosedTagsError] exactly when the tag stack is
    not empty, it never changes the state, and on an empty stack it
    returns the concatenation of the parts. *)
Theorem C5_render_unclosed_iff (w : World) :
  (fst (Fragment.render w) = Raise UnclosedTagsError ↔ _tag_stack w ≠ []) ∧
  snd (Fragment.render w) = w ∧
  (_tag_stack w = [] →
   Fragment.render w = (Return (Str.join "" (_parts w)), w)) ∧
  (is_raise (fst (Fragment.render w)) = true →
   fst (Fragment.render w) = Raise UnclosedTagsError).
Proof.
  unfold Fragment.render. destruct (_tag_stack w) as [|t r]; simpl.
  - repeat split; try done.
  - repeat split; try done.
Qed.

Lemma C5_render_witness :
  Fragment.render (set_parts ["<p>"; "a"; "</p>"] __init__) =
    (Return "<p>a</p>", set_parts ["<p>"; "a"; "</p>"] __init__).
Proof.
  apply (proj1 (proj2 (proj2 (C5_render_unclosed_iff
           (set_parts ["<p>"; "a"; "</p>"] __init__))))).
  reflexivity.
Defined.

(** C10: [__str__] is [render]: the same text on an empty tag stack, the
    same [UnclosedTagsError] otherwise, the state untouched. *)
Theorem C10_str_is_render (w : World) :
  Fragment.__str__ w = Fragment.render w ∧
  match _tag_stack w with
  | [] => Fragment.__str__ w = (Return (Str.join "" (_parts w)), w)
  | _ :: _ => Fragment.__str__ w = (Raise UnclosedTagsError, w)
  end.
Proof.
  split; [reflexivity|].
  unfold Fragment.__str__, Fragment.render. by destruct (_tag_stack w).
Qed.

(** ** Dictionaries *)

Section DictFacts.

Implicit Types (d : Dict.t) (k : string) (v : AttrValue).

Lemma dict_lookup_set_eq d k v : Dict.lookup (Dict.set d k v) k = Some v.
Proof.
  induction d as [|[k' v'] r IH]; simpl.
  - by rewrite String.eqb_refl.
  - destruct (String.eqb k' k) eqn:E; simpl; by rewrite E.
Qed.

Lemma dict_lookup_set_ne d k k' v :
  k' ≠ k → Dict.lookup (Dict.set d k v) k' = Dict.lookup d k'.
Proof.
  intros Hne. induction d as [|[k0 v0] r IH]; simpl.
  - destruct (String.eqb k k') eqn:E; [|done].
    apply String.eqb_eq in E. congruence.
  - destruct (String.eqb k0 k) eqn:E; simpl.
    + apply String.eqb_eq in E. subst k0.
      destruct (String.eqb k k') eqn:E'; [|done].
      apply String.eqb_eq in E'. congruence.
    + by rewrite IH.
Qed.

(** A second assignment to the same key overwrites the one entry. *)
Lemma dict_set_set d k v v' : Dict.set (Dict.set d k v) k v' = Dict.set d k v'.
Proof.
  induction d as [|[k0 v0] r IH]; simpl.
  - by rewrite String.eqb_refl.
  - destruct (String.eqb k0 k) eqn:E; simpl; rewrite E; [done|by rewrite IH].
Qed.

(** Keys keep their place; a new key goes last. *)
Lemma dict_keys_set d k v :
  Dict.keys (Dict.set d k v) =
    if Dict.mem d k then Dict.keys d else (Dict.keys d ++ [k])%list.
Proof.
  unfold Dict.keys, Dict.mem. induction d as [|[k0 v0] r IH]; simpl; [done|].
  destruct (String.eqb k0 k) eqn:E; simpl; [done|].
  rewrite IH. by destruct (existsb _ r).
Qed.

Lemma dict_mem_keys d k : Dict.mem d k = true ↔ k ∈ Dict.keys d.
Proof.
  unfold Dict.mem, Dict.keys. induction d as [|[k0 v0] r IH]; simpl.
  - split; [done|]. by intros ?%elem_of_nil.
  - rewrite orb_true_iff, IH, elem_of_cons, String.eqb_eq.
    split; intros [->|?]; auto.
Qed.

Lemma dict_wf_set d k v : Dict.wf d → Dict.wf (Dict.set d k v).
Proof.
  unfold Dict.wf. rewrite dict_keys_set. intros Hd.
  destruct (Dict.mem d k) eqn:E; [done|].
  apply NoDup_app. split; [done|]. split; [|apply NoDup_singleton].
  intros x Hx ->%list_elem_of_singleton.
  apply dict_mem_keys in Hx. congruence.
Qed.

Lemma dict_set_elem d k v : (k, v) ∈ Dict.set d k v.
Proof.
  induction d as [|[k0 v0] r IH]; simpl.
  - apply list_elem_of_here.
  - destruct (String.eqb k0 k) eqn:E.
    + apply String.eqb_eq in E. subst k0. apply list_elem_of_here.
    + by apply list_elem_of_further.
Qed.

End DictFacts.

(** ** Attributes and classes of a context *)

Section ContextFacts.

Import TagContext.

Lemma add_attr_pending w h c name value :
  heap w !! h = Some c → _opened c = false →
  add_attr h name value w =
    (Return tt,
     set_heap (<[h := set_attrs (Dict.set (_attrs c) name value) c]> (heap w)) w).
Proof.
  intros Hh Ho. unfold add_attr, bind, deref. by rewrite Hh, Ho.
Qed.

Lemma add_attr_opened w h c name value :
  heap w !! h = Some c → _opened c = true →
  add_attr h name value w = (Raise TagAlreadyOpenedError, w).
Proof.
  intros Hh Ho. unfold add_attr, bind, deref. by rewrite Hh, Ho.
Qed.

Lemma add_class_pending w h c class_name :
  heap w !! h = Some c → _opened c = false →
  let existing := py_or (Dict.get (_attrs c) "class_") (Dict.get (_attrs c) "class") in
  add_class h class_name w =
    (Return tt,
     set_heap (<[h := set_attrs (Dict.set (_attrs c) "class_"
                  (VStr (if truthy existing
                         then py_str existing +:+ " " +:+ class_name
                         else class_name))) c]> (heap w)) w).
Proof.
  intros Hh Ho. unfold add_class, bind, deref. rewrite Hh, Ho. simpl.
  by destruct (truthy _).
Qed.

Lemma add_class_opened w h c class_name :
  heap w !! h = Some c → _opened c = true →
  add_class h class_name w = (Raise TagAlreadyOpenedError, w).
Proof.
  intros Hh Ho. unfold add_class, bind, deref. by rewrite Hh, Ho.
Qed.

Lemma attr_current w h name value :
  last (_context_stack w) = Some h →
  Fragment.attr name value w = add_attr h name value w.
Proof. intros Hl. unfold Fragment.attr. by rewrite Hl. Qed.

Lemma classes_current w h class_name :
  last (_context_stack w) = Some h →
  Fragment.classes class_name w = add_class h class_name w.
Proof. intros Hl. unfold Fragment.classes. by rewrite Hl. Qed.

End ContextFacts.

(** C1 (as amended): on a pending context [add_attr] stores the value
    under the name as it was given; the name is converted only when the
    opening tag is written.  Other keys keep their value, the keys keep
    their order (a new one goes last), a second assignment to the same
    name overwrites the one entry, and a value other than [None] is
    rendered under the converted name.  [Fragment.attr] is [add_attr] on
    the innermost open context. *)
Theorem C1_add_attr_stores_given_name
    (w : World) (h : handle) (c : _TagContext) (name : string) (value : AttrValue) :
  heap w !! h = Some c →
  _opened c = false →
  let attrs' := Dict.set (_attrs c) name value in
  TagContext.add_attr h name value w =
    (Return tt, set_heap (<[h := set_attrs attrs' c]> (heap w)) w) ∧
  heap (snd (TagContext.add_attr h name value w)) !! h = Some (set_attrs attrs' c) ∧
  Dict.lookup attrs' name = Some value ∧
  (∀ k, k ≠ name → Dict.lookup attrs' k = Dict.lookup (_attrs c) k) ∧
  Dict.keys attrs' =
    (if Dict.mem (_attrs c) name then Dict.keys (_attrs c)
     else (Dict.keys (_attrs c) ++ [name])%list) ∧
  (∀ value', Dict.set attrs' name value' = Dict.set (_attrs c) name value') ∧
  (Dict.wf (_attrs c) → Dict.wf attrs') ∧
  (value ≠ VNone →
   _convert_attr_name name +:+ "=" +:+ quoted (_escape_attr_value value)
     ∈ map TagContext.attr_item (List.filter TagContext.not_None attrs')) ∧
  (last (_context_stack w) = Some h →
   Fragment.attr name value w = TagContext.add_attr h name value w).
Proof.
  intros Hh Ho attrs'.
  rewrite (add_attr_pending w h c name value Hh Ho). simpl.
  split; [done|]. split.
  { apply list_lookup_insert_eq. by eapply lookup_lt_Some. }
  split; [apply dict_lookup_set_eq|].
  split; [intros k Hk; by apply dict_lookup_set_ne|].
  split; [apply dict_keys_set|].
  split; [intros v'; apply dict_set_set|].
  split; [apply dict_wf_set|].
  split.
  - intros Hv. apply list_elem_of_In, in_map_iff.
    exists (name, value). split; [done|].
    apply filter_In. split; [apply list_elem_of_In, dict_set_elem|].
    unfold TagContext.not_None. simpl. by destruct value.
  - intros Hl. rewrite (attr_current w h name value Hl).
    by apply add_attr_pending.
Qed.

Lemma C1_add_attr_witness :
  Dict.lookup
    (Dict.set [("id", VStr "main")] "class_" (VStr "a")) "class_" = Some (VStr "a").
Proof.
  pose (c := {| _tag_name := "div"; _self_closing := false;
                _attrs := [("id", VStr "main")]; _opened := false |}).
  pose (w := set_heap [c] __init__).
  exact (proj1 (proj2 (proj2
    (C1_add_attr_stores_given_name w 0 c "class_" (VStr "a") eq_refl eq_refl)))).
Defined.

(** C1 (as stated) fails: [class_] is not stored under [class], and
    [class_] followed by [class] leaves two entries, both rendered as
    [class]. *)
Lemma C1_class_alias_then_class_two_entries :
  let w0 := snd (run (h ← Fragment.tag "div" []; TagContext.__enter__ h)) in
  let w1 := snd (Fragment.attr "class_" (VStr "a") w0) in
  let w2 := snd (Fragment.attr "class" (VStr "b") w1) in
  _convert_attr_name "class_" = "class" ∧
  _attrs <$> heap w1 !! 0 = Some [("class_", VStr "a")] ∧
  (_attrs <$> heap w1 !! 0) ≫= (λ d, Dict.lookup d "class") = None ∧
  _attrs <$> heap w2 !! 0 = Some [("class_", VStr "a"); ("class", VStr "b")] ∧
  TagContext.opening_tag <$> heap w2 !! 0 =
    Some ("<div class=" +:+ quoted "a" +:+ " class=" +:+ quoted "b" +:+ ">").
Proof. repeat split. Qed.

(** C6: on an opened context [add_attr] and [add_class] raise
    [TagAlreadyOpenedError] and leave the whole state as it was, the
    attributes included; on a pending context they return.  The same
    holds of [attr] and [classes] when the context is the innermost open
    one. *)
Theorem C6_opened_context_rejects_changes
    (w : World) (h : handle) (c : _TagContext)
    (name : string) (value : AttrValue) (class_name : string) :
  heap w !! h = Some c →
  (if _opened c then
     TagContext.add_attr h name value w = (Raise TagAlreadyOpenedError, w) ∧
     TagContext.add_class h class_name w = (Raise TagAlreadyOpenedError, w)
   else
     (∃ w', TagContext.add_attr h name value w = (Return tt, w')) ∧
     (∃ w', TagContext.add_class h class_name w = (Return tt, w'))) ∧
  (last (_context_stack w) = Some h →
   Fragment.attr name value w = TagContext.add_attr h name value w ∧
   Fragment.classes class_name w = TagContext.add_class h class_name w).
Proof.
  intros Hh. split.
  - destruct (_opened c) eqn:Ho.
    + split; [by eapply add_attr_opened | by eapply add_class_opened].
    + split; eexists.
      * by eapply add_attr_pending.
      * by eapply add_class_pending.
  - intros Hl. split; [by apply attr_current | by apply classes_current].
Qed.

Lemma C6_opened_context_witness :
  let c := {| _tag_name := "div"; _self_closing := false;
              _attrs := [("id", VStr "main")]; _opened := true |} in
  let w := set_context_stack [0] (set_tag_stack ["div"]
             (set_parts ["<div id=" +:+ quoted "main" +:+ ">"] (set_heap [c] __init__))) in
  TagContext.add_attr 0 "class" (VStr "x") w = (Raise TagAlreadyOpenedError, w) ∧
  TagContext.add_class 0 "x" w = (Raise TagAlreadyOpenedError, w).
Proof.
  intros c w.
  exact (proj1 (C6_opened_context_rejects_changes w 0 c "class" (VStr "x") "x" eq_refl)).
Defined.

(** What [add_class] leaves when a class was first set under the key
    [class]: that entry stays beside the new [class_] one. *)
Example add_class_after_attr_class :
  fst (run (with_ (Fragment.div []) (λ _,
         Fragment.attr "class" (VStr "a");;
         Fragment.classes "b");;
       Fragment.render))
    = Return ("<div class=" +:+ quoted "a" +:+ " class=" +:+ quoted "a b" +:+ "></div>").
Proof. reflexivity. Qed.

(** C7 (as amended): on a pending context whose class, if it has one
    that is true for Python, sits under [class_], [add_class] writes
    under [class_] that value followed by one space and the new class;
    when neither [class_] nor [class] holds a true value (missing,
    [None], empty, zero) it writes the new class alone.  Nothing but the
    context changes.  The example of the specification renders as it
    says. *)
Theorem C7_add_class_appends_to_true_value
    (w : World) (h : handle) (c : _TagContext) (class_name : string) :
  heap w !! h = Some c →
  _opened c = false →
  let alias := Dict.get (_attrs c) "class_" in
  truthy alias = true ∨ truthy (Dict.get (_attrs c) "class") = false →
  let new :=
    if truthy alias then py_str alias +:+ " " +:+ class_name else class_name in
  (∃ c', TagContext.add_class h class_name w =
           (Return tt, set_heap (<[h := c']> (heap w)) w) ∧
         Dict.lookup (_attrs c') "class_" = Some (VStr new) ∧
         _tag_name c' = _tag_name c ∧ _self_closing c' = _self_closing c ∧
         _opened c' = false) ∧
  fst (run (with_ (Fragment.div [("class_", VStr "panel")]) (λ _,
         Fragment.classes "admin";;
         Fragment.classes "active";;
         Fragment.text (VStr "Panel Content"));;
       Fragment.render))
    = Return ("<div class=" +:+ quoted "panel admin active" +:+ ">Panel Content</div>").
Proof.
  intros Hh Ho alias Hcase new.
  split; [|reflexivity].
  exists (set_attrs (Dict.set (_attrs c) "class_" (VStr new)) c).
  split.
  { rewrite (add_class_pending w h c class_name Hh Ho).
    subst new alias. unfold py_or.
    destruct (truthy (Dict.get (_attrs c) "class_")) eqn:E1; [by rewrite E1|].
    destruct Hcase as [|E2]; [done|]. by rewrite E2. }
  split; [apply dict_lookup_set_eq|]. done.
Qed.

Lemma C7_add_class_witness :
  let c := {| _tag_name := "div"; _self_closing := false;
              _attrs := [("class_", VStr "panel")]; _opened := false |} in
  let w := set_context_stack [0] (set_tag_stack ["div"] (set_heap [c] __init__)) in
  ∃ c', TagContext.add_class 0 "admin" w =
          (Return tt, set_heap (<[0 := c']> (heap w)) w) ∧
        Dict.lookup (_attrs c') "class_" = Some (VStr "panel admin") ∧
        _tag_name c' = "div" ∧ _self_closing c' = false ∧ _opened c' = false.
Proof.
  intros c w.
  exact (proj1 (C7_add_class_appends_to_true_value w 0 c "admin"
                  eq_refl eq_refl (or_introl eq_refl))).
Defined.

(** C7 (as stated) fails: with the class set to the empty string the new
    class is written alone, with no space before it. *)
Lemma C7_empty_class_gets_no_space :
  fst (run (with_ (Fragment.div [("class_", VStr "")]) (λ _,
         Fragment.classes "x");;
       Fragment.render))
    = Return ("<div class=" +:+ quoted "x" +:+ "></div>") ∧
  "<div class=" +:+ quoted "x" +:+ "></div>"
    ≠ "<div class=" +:+ quoted " x" +:+ "></div>".
Proof. split; [reflexivity|discriminate]. Qed.

(** ** What an operation leaves of the stacks and of the store *)

Section Frames.

Import TagContext Fragment.

Lemma frame_ok_refl w : frame_ok w w.
Proof. by repeat split. Qed.

Lemma frame_ok_trans w1 w2 w3 : frame_ok w1 w2 → frame_ok w2 w3 → frame_ok w1 w3.
Proof.
  intros (?&?&?) (?&?&?). repeat split; [congruence..|lia].
Qed.

Lemma keeps_ret {A} (a : A) : keeps_stacks (ret a).
Proof. intros w. apply frame_ok_refl. Qed.

Lemma keeps_raise {A} e : keeps_stacks (@raise A e).
Proof. intros w. apply frame_ok_refl. Qed.

Lemma keeps_bind {A B} (m : M A) (f : A → M B) :
  keeps_stacks m → (∀ a, keeps_stacks (f a)) → keeps_stacks (bind m f).
Proof.
  intros Hm Hf w. unfold bind. specialize (Hm w).
  destruct (m w) as [[a|e] w1]; simpl in *; [|done].
  eapply frame_ok_trans; [done|apply Hf].
Qed.

Lemma preserves_ret {A} P (a : A) : preserves P (ret a).
Proof. by intros w. Qed.

Lemma preserves_bind {A B} P (m : M A) (f : A → M B) :
  preserves P m → (∀ a, preserves P (f a)) → preserves P (bind m f).
Proof.
  intros Hm Hf w Hw. unfold bind. specialize (Hm w Hw).
  destruct (m w) as [[a|e] w1]; simpl in *; [|done].
  by apply Hf.
Qed.

Lemma preserves_with {A} P (cm : M handle) (body : handle → M A) :
  preserves P cm → (∀ h, preserves P (__enter__ h)) →
  (∀ h, preserves P (body h)) → (∀ h, preserves P (__exit__ h)) →
  preserves P (with_ cm body).
Proof.
  intros Hcm Hen Hbody Hex. unfold with_.
  apply preserves_bind; [done|]. intros h.
  apply preserves_bind; [done|]. intros h' w Hw.
  specialize (Hbody h' w Hw). destruct (body h' w) as [r w1]. simpl in Hbody.
  specialize (Hex h' w1 Hbody).
  by destruct (__exit__ h' w1) as [[[]|e] w2].
Qed.

Lemma keeps_balanced {A} (m : M A) : keeps_stacks m → preserves balanced m.
Proof.
  intros Hm w Hw. destruct (Hm w) as (Ht & Hc & _).
  unfold balanced in *. congruence.
Qed.

Lemma keeps_handles_ok {A} (m : M A) : keeps_stacks m → preserves handles_ok m.
Proof.
  intros Hm w Hw. destruct (Hm w) as (_ & Hc & Hl).
  unfold handles_ok in *. rewrite Hc.
  eapply Forall_impl; [done|]. simpl. lia.
Qed.

Lemma keeps_deref h : keeps_stacks (deref h).
Proof. intros w. unfold deref. destruct (heap w !! h); apply frame_ok_refl. Qed.

Lemma keeps_assign h c : keeps_stacks (assign h c).
Proof. intros w. repeat split; simpl. by rewrite length_insert. Qed.

Lemma keeps_alloc c : keeps_stacks (alloc c).
Proof. intros w. repeat split; simpl. rewrite length_app. lia. Qed.

Lemma keeps_parts_append s : keeps_stacks (parts_append s).
Proof. intros w. by repeat split. Qed.

Lemma keeps_ensure_opened h : keeps_stacks (_ensure_opened h).
Proof.
  unfold _ensure_opened. apply keeps_bind; [apply keeps_deref|]. intros c.
  destruct (negb (_opened c)); [|apply keeps_ret].
  apply keeps_bind; [apply keeps_assign|]. intros _. apply keeps_parts_append.
Qed.

Lemma keeps_open_current : keeps_stacks open_current.
Proof.
  intros w. unfold open_current.
  destruct (last (_context_stack w)); [apply keeps_ensure_opened|apply frame_ok_refl].
Qed.

Lemma keeps_add_attr h name value : keeps_stacks (add_attr h name value).
Proof.
  unfold add_attr. apply keeps_bind; [apply keeps_deref|]. intros c.
  destruct (_opened c); [apply keeps_raise|apply keeps_assign].
Qed.

Lemma keeps_add_class h class_name : keeps_stacks (add_class h class_name).
Proof.
  unfold add_class. apply keeps_bind; [apply keeps_deref|]. intros c.
  destruct (_opened c); [apply keeps_raise|].
  simpl. destruct (truthy _); apply keeps_assign.
Qed.

Lemma keeps_tag name attrs : keeps_stacks (tag name attrs).
Proof.
  unfold tag. apply keeps_bind; [apply keeps_open_current|]. intros _.
  apply keeps_alloc.
Qed.

Lemma keeps_text content : keeps_stacks (text content).
Proof.
  unfold text. destruct (negb (is_None content)); [|apply keeps_ret].
  apply keeps_bind; [apply keeps_open_current|]. intros _. apply keeps_parts_append.
Qed.

Lemma keeps_raw content : keeps_stacks (raw content).
Proof.
  unfold raw. destruct (negb (is_None content)); [|apply keeps_ret].
  apply keeps_bind; [apply keeps_open_current|]. intros _. apply keeps_parts_append.
Qed.

Lemma keeps_attr name value : keeps_stacks (attr name value).
Proof.
  intros w. unfold attr.
  destruct (last (_context_stack w)); [apply keeps_add_attr|apply frame_ok_refl].
Qed.

Lemma keeps_classes class_name : keeps_stacks (classes class_name).
Proof.
  intros w. unfold classes.
  destruct (last (_context_stack w)); [apply keeps_add_class|apply frame_ok_refl].
Qed.

Lemma keeps_render : keeps_stacks render.
Proof. intros w. unfold render. destruct (_tag_stack w); apply frame_ok_refl. Qed.

Lemma keeps_fragment other : keeps_stacks (fragment other).
Proof.
  unfold fragment. apply keeps_bind; [apply keeps_open_current|]. intros _.
  apply keeps_bind; [|intros s; apply keeps_parts_append].
  destruct other; [apply keeps_render|]. intros w. apply frame_ok_refl.
Qed.

End Frames.

(** ** The two stacks *)

Section Stacks.

Import TagContext Fragment.

Lemma last_None_nil {A} (l : list A) : last l = None → l = [].
Proof. by intros ?%last_None. Qed.

Lemma length_removelast_last {A} (l : list A) x :
  last l = Some x → length l = S (length (removelast l)).
Proof.
  intros (l' & ->)%last_Some. rewrite removelast_last, length_app. simpl. lia.
Qed.

Lemma enter_balanced h : preserves balanced (__enter__ h).
Proof.
  intros w Hw. unfold __enter__, bind, deref.
  destruct (heap w !! h) as [c|]; [|done].
  destruct (_self_closing c); simpl.
  - pose proof (keeps_balanced _ (keeps_ensure_opened h) w Hw) as Hb.
    by destruct (_ensure_opened h w) as [[[]|e] w1].
  - unfold balanced in *. simpl. rewrite !length_app. simpl. lia.
Qed.

Lemma exit_balanced h : preserves balanced (__exit__ h).
Proof.
  intros w Hw. unfold __exit__, bind, deref.
  destruct (heap w !! h) as [c|]; [|done].
  destruct (_self_closing c); simpl; [done|].
  pose proof (keeps_balanced _ (keeps_ensure_opened h) w Hw) as Hb.
  destruct (_ensure_opened h w) as [[[]|e] w1]; simpl in *; [|done].
  unfold tag_stack_pop.
  destruct (last (_tag_stack w1)) as [t|] eqn:Et; [|done].
  unfold parts_append, context_stack_pop, ret. simpl.
  destruct (last (_context_stack w1)) as [x|] eqn:Ec; simpl.
  - unfold balanced in *. simpl.
    apply length_removelast_last in Et, Ec. lia.
  - apply last_None_nil in Ec. apply length_removelast_last in Et.
    unfold balanced in *. rewrite Ec in Hb. simpl in *. lia.
Qed.

Lemma clear_balanced : preserves balanced clear.
Proof. by intros w _. Qed.

Lemma void_preserves {A} P (m : M A) : preserves P m → preserves P (void m).
Proof. intros Hm. apply preserves_bind; [done|]. intros a. apply preserves_ret. Qed.

Lemma shortcut_balanced name attrs :
  preserves balanced (with_ (tag name attrs) (λ _, ret tt)).
Proof.
  apply preserves_with.
  - apply keeps_balanced, keeps_tag.
  - apply enter_balanced.
  - intros h. apply preserves_ret.
  - apply exit_balanced.
Qed.

(** Every operation keeps the stacks at equal height. *)
Lemma step_balanced o w : balanced w → balanced (step o w).
Proof.
  unfold step. revert w. change (preserves balanced (run_op o)).
  destruct o; simpl.
  - apply void_preserves, keeps_balanced, keeps_tag.
  - apply void_preserves, enter_balanced.
  - apply exit_balanced.
  - apply keeps_balanced, keeps_add_attr.
  - apply keeps_balanced, keeps_add_class.
  - apply keeps_balanced, keeps_text.
  - apply keeps_balanced, keeps_raw.
  - apply keeps_balanced, keeps_attr.
  - apply keeps_balanced, keeps_classes.
  - apply void_preserves, keeps_balanced, keeps_render.
  - apply void_preserves, keeps_balanced, keeps_render.
  - apply clear_balanced.
  - apply keeps_balanced, keeps_fragment.
  - apply shortcut_balanced.
  - apply shortcut_balanced.
  - apply shortcut_balanced.
Qed.

Lemma exec_preserves (P : World → Prop) :
  (∀ o w, P w → P (step o w)) → ∀ ops w, P w → P (exec ops w).
Proof.
  intros Hstep ops. induction ops as [|o r IH]; intros w Hw; simpl; [done|].
  by apply IH, Hstep.
Qed.

(** The handles on the context stack are handles of the store. *)
Lemma enter_handles_ok h : preserves handles_ok (__enter__ h).
Proof.
  intros w Hw. unfold __enter__, bind, deref.
  destruct (heap w !! h) as [c|] eqn:Eh; [|done].
  destruct (_self_closing c); simpl.
  - pose proof (keeps_handles_ok _ (keeps_ensure_opened h) w Hw) as Hb.
    by destruct (_ensure_opened h w) as [[[]|e] w1].
  - unfold handles_ok in *. simpl. apply Forall_app. split; [done|].
    apply Forall_singleton. by eapply lookup_lt_Some.
Qed.

Lemma Forall_removelast {A} (P : A → Prop) l : Forall P l → Forall P (removelast l).
Proof.
  destruct (last l) as [x|] eqn:E.
  - apply last_Some in E as (l' & ->). rewrite removelast_last.
    by intros [? _]%Forall_app.
  - apply last_None_nil in E. by subst.
Qed.

Lemma exit_handles_ok h : preserves handles_ok (__exit__ h).
Proof.
  intros w Hw. unfold __exit__, bind, deref.
  destruct (heap w !! h) as [c|]; [|done].
  destruct (_self_closing c); simpl; [done|].
  pose proof (keeps_handles_ok _ (keeps_ensure_opened h) w Hw) as Hb.
  destruct (_ensure_opened h w) as [[[]|e] w1]; simpl in *; [|done].
  unfold tag_stack_pop.
  destruct (last (_tag_stack w1)) as [t|]; [|done].
  unfold parts_append, context_stack_pop, ret. simpl.
  destruct (last (_context_stack w1)) as [x|]; simpl; [|done].
  unfold handles_ok in *. simpl. by apply Forall_removelast.
Qed.

Lemma shortcut_handles_ok name attrs :
  preserves handles_ok (with_ (tag name attrs) (λ _, ret tt)).
Proof.
  apply preserves_with.
  - apply keeps_handles_ok, keeps_tag.
  - apply enter_handles_ok.
  - intros h. apply preserves_ret.
  - apply exit_handles_ok.
Qed.

Lemma step_handles_ok o w : handles_ok w → handles_ok (step o w).
Proof.
  unfold step. revert w. change (preserves handles_ok (run_op o)).
  destruct o; simpl.
  - apply void_preserves, keeps_handles_ok, keeps_tag.
  - apply void_preserves, enter_handles_ok.
  - apply exit_handles_ok.
  - apply keeps_handles_ok, keeps_add_attr.
  - apply keeps_handles_ok, keeps_add_class.
  - apply keeps_handles_ok, keeps_text.
  - apply keeps_handles_ok, keeps_raw.
  - apply keeps_handles_ok, keeps_attr.
  - apply keeps_handles_ok, keeps_classes.
  - apply void_preserves, keeps_handles_ok, keeps_render.
  - apply void_preserves, keeps_handles_ok, keeps_render.
  - intros w _. apply Forall_nil_2.
  - apply keeps_handles_ok, keeps_fragment.
  - apply shortcut_handles_ok.
  - apply shortcut_handles_ok.
  - apply shortcut_handles_ok.
Qed.

(** Every state a program reaches from a fresh fragment has valid
    handles on its context stack. *)
Lemma reachable_handles_ok ops : handles_ok (exec ops __init__).
Proof. apply exec_preserves; [apply step_handles_ok|apply Forall_nil_2]. Qed.

End Stacks.

(** C9: a fresh fragment has stacks of equal height (both empty), every
    operation, whether it returns or raises, leaves them of equal height,
    and so they are in every state a program reaches. *)
Theorem C9_stacks_have_equal_length :
  balanced __init__ ∧
  (∀ o w, balanced w → balanced (step o w)) ∧
  (∀ ops, balanced (exec ops __init__)).
Proof.
  split; [reflexivity|]. split; [apply step_balanced|].
  intros ops. apply exec_preserves; [apply step_balanced|reflexivity].
Qed.

Lemma C9_stacks_witness :
  balanced (step (OpExit 0) (exec [OpTag "div" []; OpEnter 0; OpText (VStr "a")] __init__)).
Proof.
  apply (proj1 (proj2 C9_stacks_have_equal_length)).
  apply (proj2 (proj2 C9_stacks_have_equal_length)).
Defined.

(** ** Materialization *)

Section Materialize.

Import TagContext Fragment.

Lemma ensure_opened_pending w h c :
  heap w !! h = Some c → _opened c = false →
  _ensure_opened h w = (Return tt, materialized h c w).
Proof.
  intros Hh Ho. unfold _ensure_opened, bind, deref. by rewrite Hh, Ho.
Qed.

Lemma ensure_opened_opened w h c :
  heap w !! h = Some c → _opened c = true →
  _ensure_opened h w = (Return tt, w).
Proof.
  intros Hh Ho. unfold _ensure_opened, bind, deref. by rewrite Hh, Ho.
Qed.

Lemma handles_ok_last w h :
  handles_ok w → last (_context_stack w) = Some h → is_Some (heap w !! h).
Proof.
  intros Hw (l & E)%last_Some. unfold handles_ok in Hw. rewrite E in Hw.
  rewrite Forall_app, Forall_singleton in Hw. destruct Hw as [_ Hh].
  by apply lookup_lt_is_Some.
Qed.

Lemma open_current_settled w :
  handles_ok w → current_pending w = false → open_current w = (Return tt, w).
Proof.
  intros Hw Hp. unfold open_current, current_pending in *.
  destruct (last (_context_stack w)) as [h|] eqn:El; [|done].
  destruct (handles_ok_last w h Hw El) as [c Hc]. rewrite Hc in Hp.
  apply (ensure_opened_opened w h c Hc). by destruct (_opened c).
Qed.

Lemma open_current_pending w h c :
  last (_context_stack w) = Some h → heap w !! h = Some c → _opened c = false →
  open_current w = (Return tt, materialized h c w).
Proof.
  intros Hl Hh Ho. unfold open_current. rewrite Hl.
  by apply ensure_opened_pending.
Qed.

Lemma current_pending_true w :
  current_pending w = true →
  ∃ h c, last (_context_stack w) = Some h ∧ heap w !! h = Some c ∧ _opened c = false.
Proof.
  unfold current_pending. intros Hp.
  destruct (last (_context_stack w)) as [h|]; [|done].
  destruct (heap w !! h) as [c|] eqn:Hc; [|done].
  exists h, c. split; [done|]. split; [done|]. by destruct (_opened c).
Qed.

Lemma tag_settled w name attrs :
  handles_ok w → current_pending w = false →
  tag name attrs w =
    (Return (length (heap w)), set_heap (heap w ++ [new_context name attrs]) w).
Proof.
  intros Hw Hp. unfold tag, bind. by rewrite (open_current_settled w Hw Hp).
Qed.

Lemma tag_pending w h c name attrs :
  last (_context_stack w) = Some h → heap w !! h = Some c → _opened c = false →
  tag name attrs w =
    (Return (length (heap w)),
     set_heap (heap (materialized h c w) ++ [new_context name attrs])
       (materialized h c w)).
Proof.
  intros Hl Hh Ho. unfold tag, bind. rewrite (open_current_pending w h c Hl Hh Ho).
  unfold alloc. simpl. by rewrite length_insert.
Qed.

End Materialize.

(** ** Self-closing elements *)

Section Void.

Import TagContext Fragment.

Lemma preserves_deref_bind {B} P h (k : _TagContext → M B) :
  (∀ w c, P w → heap w !! h = Some c → P (snd (k c w))) →
  preserves P (bind (deref h) k).
Proof.
  intros Hk w Hw. unfold bind, deref.
  destruct (heap w !! h) as [c|] eqn:Hc; [by apply Hk|done].
Qed.

Lemma void_inv_update w h c c' :
  void_inv w → heap w !! h = Some c →
  _tag_name c' = _tag_name c → _self_closing c' = _self_closing c →
  void_inv (set_heap (<[h := c']> (heap w)) w).
Proof.
  intros [Hh Ht] Hc Hn Hs. split; [|done]. simpl.
  apply Forall_insert; [done|].
  unfold flag_ok. rewrite Hn, Hs.
  by apply (Forall_lookup_1 _ _ _ _ Hh Hc).
Qed.

Lemma void_inv_parts w p : void_inv w → void_inv (set_parts p w).
Proof. by intros [? ?]. Qed.

Lemma ensure_opened_void_inv h : preserves void_inv (_ensure_opened h).
Proof.
  apply preserves_deref_bind. intros w c Hw Hc.
  destruct (_opened c); simpl; [done|].
  apply void_inv_parts. by eapply void_inv_update.
Qed.

Lemma open_current_void_inv : preserves void_inv open_current.
Proof.
  intros w Hw. unfold open_current.
  destruct (last (_context_stack w)); [by apply ensure_opened_void_inv|done].
Qed.

Lemma add_attr_void_inv h name value : preserves void_inv (add_attr h name value).
Proof.
  apply preserves_deref_bind. intros w c Hw Hc.
  destruct (_opened c); simpl; [done|]. by eapply void_inv_update.
Qed.

Lemma add_class_void_inv h class_name : preserves void_inv (add_class h class_name).
Proof.
  apply preserves_deref_bind. intros w c Hw Hc.
  destruct (_opened c); simpl; [done|].
  destruct (truthy _); simpl; by eapply void_inv_update.
Qed.

Lemma tag_void_inv name attrs : preserves void_inv (tag name attrs).
Proof.
  apply preserves_bind; [apply open_current_void_inv|].
  intros _ w [Hh Ht]. split; [|done]. simpl.
  apply Forall_app. split; [done|]. by apply Forall_singleton.
Qed.

Lemma parts_append_void_inv s : preserves void_inv (parts_append s).
Proof. intros w Hw. by apply void_inv_parts. Qed.

Lemma enter_void_inv h : preserves void_inv (__enter__ h).
Proof.
  apply preserves_deref_bind. intros w c Hw Hc.
  unfold bind. destruct (_self_closing c) eqn:Es; simpl.
  - pose proof (ensure_opened_void_inv h w Hw) as Hb.
    by destruct (_ensure_opened h w) as [[[]|e] w1].
  - destruct Hw as [Hh Ht]. split; [done|]. simpl.
    apply Forall_app. split; [done|]. apply Forall_singleton.
    pose proof (Forall_lookup_1 _ _ _ _ Hh Hc) as Hf.
    unfold flag_ok in Hf. rewrite Es in Hf.
    symmetry in Hf. by apply bool_decide_eq_false in Hf.
Qed.

Lemma exit_void_inv h : preserves void_inv (__exit__ h).
Proof.
  apply preserves_deref_bind. intros w c Hw Hc.
  destruct (_self_closing c); simpl; [done|].
  unfold bind.
  pose proof (ensure_opened_void_inv h w Hw) as Hb.
  destruct (_ensure_opened h w) as [[[]|e] w1]; simpl in *; [|done].
  unfold tag_stack_pop.
  destruct (last (_tag_stack w1)) as [t|]; [|done].
  unfold parts_append, context_stack_pop, ret. simpl.
  destruct Hb as [Hh Ht].
  destruct (last (_context_stack w1)) as [x|]; simpl;
    (split; [done|]; simpl; by apply Forall_removelast).
Qed.

Lemma text_void_inv content : preserves void_inv (text content).
Proof.
  unfold text. destruct (negb (is_None content)); [|apply preserves_ret].
  apply preserves_bind; [apply open_current_void_inv|].
  intros _. apply parts_append_void_inv.
Qed.

Lemma raw_void_inv content : preserves void_inv (raw content).
Proof.
  unfold raw. destruct (negb (is_None content)); [|apply preserves_ret].
  apply preserves_bind; [apply open_current_void_inv|].
  intros _. apply parts_append_void_inv.
Qed.

Lemma attr_void_inv name value : preserves void_inv (attr name value).
Proof.
  intros w Hw. unfold attr.
  destruct (last (_context_stack w)); [by apply add_attr_void_inv|done].
Qed.

Lemma classes_void_inv class_name : preserves void_inv (classes class_name).
Proof.
  intros w Hw. unfold classes.
  destruct (last (_context_stack w)); [by apply add_class_void_inv|done].
Qed.

Lemma render_void_inv : preserves void_inv render.
Proof. intros w Hw. unfold render. by destruct (_tag_stack w). Qed.

Lemma fragment_void_inv other : preserves void_inv (fragment other).
Proof.
  apply preserves_bind; [apply open_current_void_inv|]. intros _.
  apply preserves_bind; [|intros s; apply parts_append_void_inv].
  destruct other; [apply render_void_inv|]. by intros w Hw.
Qed.

Lemma clear_void_inv : preserves void_inv clear.
Proof. intros w [Hh _]. split; [done|]. apply Forall_nil_2. Qed.

Lemma shortcut_void_inv name attrs :
  preserves void_inv (with_ (tag name attrs) (λ _, ret tt)).
Proof.
  apply preserves_with.
  - apply tag_void_inv.
  - apply enter_void_inv.
  - intros h. apply preserves_ret.
  - apply exit_void_inv.
Qed.

Lemma step_void_inv o w : void_inv w → void_inv (step o w).
Proof.
  unfold step. revert w. change (preserves void_inv (run_op o)).
  destruct o; simpl.
  - apply void_preserves, tag_void_inv.
  - apply void_preserves, enter_void_inv.
  - apply exit_void_inv.
  - apply add_attr_void_inv.
  - apply add_class_void_inv.
  - apply text_void_inv.
  - apply raw_void_inv.
  - apply attr_void_inv.
  - apply classes_void_inv.
  - apply void_preserves, render_void_inv.
  - apply void_preserves, render_void_inv.
  - apply clear_void_inv.
  - apply fragment_void_inv.
  - apply shortcut_void_inv.
  - apply shortcut_void_inv.
  - apply shortcut_void_inv.
Qed.

Lemma reachable_void_inv ops : void_inv (exec ops __init__).
Proof.
  apply exec_preserves; [apply step_void_inv|].
  split; apply Forall_nil_2.
Qed.

(** Leaving a self-closing context changes nothing, in any state. *)
Lemma exit_self_closing w h c :
  heap w !! h = Some c → _self_closing c = true → __exit__ h w = (Return tt, w).
Proof.
  intros Hc Hs. unfold __exit__, bind, deref. by rewrite Hc, Hs.
Qed.

(** Entering a pending self-closing context writes its tag and pushes
    nothing. *)
Lemma enter_self_closing w h c :
  heap w !! h = Some c → _self_closing c = true → _opened c = false →
  __enter__ h w = (Return h, materialized h c w).
Proof.
  intros Hc Hs Ho. unfold __enter__, bind, deref. rewrite Hc, Hs. simpl.
  by rewrite (ensure_opened_pending w h c Hc Ho).
Qed.

(** What leaving a context appends: at most the opening tag of the
    context, then at most one closing tag, made from the top of the tag
    stack, whose name is not a self-closing one. *)
Lemma exit_appends w h :
  void_inv w →
  ∃ pre closing,
    _parts (snd (__exit__ h w)) = (_parts w ++ pre ++ closing) ∧
    (pre = [] ∨
     ∃ c, heap w !! h = Some c ∧ _self_closing c = false ∧ pre = [opening_tag c]) ∧
    (closing = [] ∨
     ∃ t, last (_tag_stack w) = Some t ∧ (Str.lower t ∉ SELF_CLOSING) ∧
          closing = ["</" +:+ t +:+ ">"]).
Proof.
  intros [_ Hts]. unfold __exit__, bind, deref.
  destruct (heap w !! h) as [c|] eqn:Hc; simpl;
    [|exists [], []; rewrite !app_nil_r; auto].
  destruct (_self_closing c) eqn:Hs; simpl;
    [exists [], []; rewrite !app_nil_r; auto|].
  assert (Hpre : ∃ pre w1,
    _ensure_opened h w = (Return tt, w1) ∧ _parts w1 = _parts w ++ pre ∧
    _tag_stack w1 = _tag_stack w ∧
    (pre = [] ∨ ∃ c, heap w !! h = Some c ∧ _self_closing c = false ∧
                     pre = [opening_tag c])).
  { destruct (_opened c) eqn:Ho.
    - exists [], w. rewrite app_nil_r.
      split; [by apply (ensure_opened_opened w h c)|auto].
    - exists [opening_tag c], (materialized h c w).
      split; [by apply ensure_opened_pending|].
      split; [done|]. split; [done|]. right. by exists c. }
  destruct Hpre as (pre & w1 & -> & Hp & Ht & Hpre).
  exists pre. unfold tag_stack_pop. rewrite Ht.
  destruct (last (_tag_stack w)) as [t|] eqn:El; simpl.
  - exists ["</" +:+ t +:+ ">"]. split.
    { unfold context_stack_pop, parts_append, ret. simpl.
      destruct (last (_context_stack w1)); simpl; by rewrite Hp, app_assoc. }
    split.
    { destruct Hpre as [->|(c0 & Hc0 & Hs0 & ->)]; [by left|].
      right. exists c0. split; [congruence|done]. }
    right. exists t. split; [done|]. split; [|done].
    apply last_Some in El as (l & El). rewrite El in Hts.
    rewrite Forall_app, Forall_singleton in Hts. by destruct Hts.
  - exists []. rewrite app_nil_r. split; [done|]. split; [|by left].
    destruct Hpre as [->|(c0 & Hc0 & Hs0 & ->)]; [by left|].
    right. exists c0. split; [congruence|done].
Qed.

Lemma enter_self_closing_opened w h c :
  heap w !! h = Some c → _self_closing c = true → _opened c = true →
  __enter__ h w = (Return h, w).
Proof.
  intros Hc Hs Ho. unfold __enter__, bind, deref. rewrite Hc, Hs. simpl.
  by rewrite (ensure_opened_opened w h c Hc Ho).
Qed.

End Void.

Section TagResult.

Import TagContext Fragment.

(** With valid handles [tag] returns: it allocates the new context in
    the state [open_current] left, which has the stacks of the first. *)
Lemma tag_returns w name attrs :
  handles_ok w →
  ∃ w0, open_current w = (Return tt, w0) ∧
        _tag_stack w0 = _tag_stack w ∧ _context_stack w0 = _context_stack w ∧
        length (heap w0) = length (heap w) ∧
        (_parts w0 = _parts w ∨ ∃ p, _parts w0 = _parts w ++ [p]) ∧
        tag name attrs w =
          (Return (length (heap w)),
           set_heap (heap w0 ++ [new_context name attrs]) w0).
Proof.
  intros Hw. destruct (current_pending w) eqn:Hp.
  - apply current_pending_true in Hp as (h & c & Hl & Hc & Ho).
    exists (materialized h c w).
    split; [by apply open_current_pending|].
    split; [done|]. split; [done|].
    split; [simpl; by rewrite length_insert|].
    split; [right; by eexists|].
    by apply tag_pending.
  - exists w. split; [by apply open_current_settled|].
    split; [done|]. split; [done|]. split; [done|]. split; [by left|].
    by apply tag_settled.
Qed.

End TagResult.

(** C8: for a name that is, in lower case, one of the self-closing ones,
    the context [tag] returns is self-closing; entering it materializes
    it, that is, appends the opening tag in its [ />] form and leaves the
    context opened (no other context changes), with both stacks as they
    were;
    leaving it changes nothing, so that the whole [with] block appends
    that one text and [render] raises after it only if it did before.
    In any state, leaving a self-closing context changes nothing, and
    entering one pushes nothing, appends its opening tag, in the [ />]
    form, if that was not written yet, and leaves the context opened.  In every state a program reaches no name on the tag
    stack is a self-closing one, and leaving a context there appends at
    most the opening tag of that context and one closing tag, written
    from the top of the tag stack. *)
Theorem C8_void_element_scope :
  (∀ w name attrs,
     handles_ok w → Str.lower name ∈ Fragment.SELF_CLOSING →
     ∃ w1 w2,
       let h := length (heap w) in
       Fragment.tag name attrs w = (Return h, w1) ∧
       heap w1 !! h = Some (new_context name attrs) ∧
       _self_closing (new_context name attrs) = true ∧
       TagContext.__enter__ h w1 = (Return h, w2) ∧
       _parts w2 =
         (_parts w1 ++
          ["<" +:+ name +:+ TagContext.attr_str attrs +:+ " />"])%list ∧
       _tag_stack w2 = _tag_stack w ∧
       _context_stack w2 = _context_stack w ∧
       heap w2 !! h =
         Some {| _tag_name := name; _self_closing := true;
                 _attrs := attrs; _opened := true |} ∧
       (∀ k c, k ≠ h → heap w1 !! k = Some c → heap w2 !! k = Some c) ∧
       TagContext.__exit__ h w2 = (Return tt, w2) ∧
       with_ (Fragment.tag name attrs) (λ _, ret tt) w = (Return tt, w2) ∧
       is_raise (fst (Fragment.render w2)) = is_raise (fst (Fragment.render w))) ∧
  (∀ w h c,
     heap w !! h = Some c → _self_closing c = true →
     TagContext.__exit__ h w = (Return tt, w) ∧
     ∃ w', TagContext.__enter__ h w = (Return h, w') ∧
       _tag_stack w' = _tag_stack w ∧
       _context_stack w' = _context_stack w ∧
       (_parts w' =
         if _opened c then _parts w
         else _parts w ++
              ["<" +:+ _tag_name c +:+ TagContext.attr_str (_attrs c) +:+ " />"]) ∧
       heap w' !! h =
         Some {| _tag_name := _tag_name c; _self_closing := true;
                 _attrs := _attrs c; _opened := true |}) ∧
  (∀ ops, void_inv (exec ops __init__)) ∧
  (∀ ops h,
     let w := exec ops __init__ in
     ∃ pre closing,
       _parts (snd (TagContext.__exit__ h w)) = (_parts w ++ pre ++ closing) ∧
       (pre = [] ∨
        ∃ c, heap w !! h = Some c ∧ _self_closing c = false ∧
             pre = [TagContext.opening_tag c]) ∧
       (closing = [] ∨
        ∃ t, last (_tag_stack w) = Some t ∧
             (Str.lower t ∉ Fragment.SELF_CLOSING) ∧
             closing = ["</" +:+ t +:+ ">"])).
Proof.
  split; [|split; [|split; [apply reachable_void_inv|]]]; cycle 2.
  { intros ops h. apply exit_appends, reachable_void_inv. }
  all: cycle 1.
  { intros w h c Hc Hs. split; [by apply (exit_self_closing w h c)|].
    destruct (_opened c) eqn:Ho.
    - exists w. split; [by apply (enter_self_closing_opened w h c)|].
      split; [done|]. split; [done|]. split; [done|].
      rewrite Hc. f_equal. destruct c; simpl in *; by subst.
    - exists (materialized h c w). split; [by apply enter_self_closing|].
      split; [done|]. split; [done|].
      split; [simpl; unfold TagContext.opening_tag; by rewrite Hs|].
      simpl. rewrite list_lookup_insert_eq by by eapply lookup_lt_Some.
      f_equal. destruct c; simpl in *; by subst. }
  intros w name attrs Hw Hn.
  destruct (tag_returns w name attrs Hw) as (w0 & Ho & Ht & Hc & Hl & _ & Htag).
  set (c := new_context name attrs) in *.
  set (w1 := set_heap (heap w0 ++ [c]) w0) in *.
  assert (Hs : _self_closing c = true) by by apply bool_decide_eq_true_2.
  assert (Hh : heap w1 !! length (heap w) = Some c).
  { simpl. rewrite <- Hl. by apply list_lookup_middle. }
  pose proof (enter_self_closing w1 _ c Hh Hs eq_refl) as Hen.
  set (w2 := materialized (length (heap w)) c w1) in *.
  assert (Hh2 : heap w2 !! length (heap w) = Some (set_opened true c)).
  { simpl. apply list_lookup_insert_eq. rewrite length_app. simpl. lia. }
  pose proof (exit_self_closing w2 _ _ Hh2 Hs) as Hex.
  exists w1, w2. simpl.
  split; [done|]. split; [done|]. split; [done|]. split; [done|].
  split.
  { simpl. unfold TagContext.opening_tag. by rewrite Hs. }
  split; [done|]. split; [done|].
  split.
  { etrans; [exact Hh2|]. f_equal. unfold set_opened. by rewrite Hs. }
  split.
  { intros k c0 Hk Hc0. simpl. by rewrite list_lookup_insert_ne. }
  split; [done|].
  split.
  { unfold with_, bind. rewrite Htag, Hen. unfold ret. by rewrite Hex. }
  unfold Fragment.render. simpl. rewrite Ht. by destruct (_tag_stack w).
Qed.

Lemma C8_void_element_witness :
  ∃ w1 w2,
    Fragment.tag "IMG" [("src", VStr "a.png")] __init__ = (Return 0, w1) ∧
    TagContext.__enter__ 0 w1 = (Return 0, w2) ∧
    _parts w2 = _parts w1 ++ ["<IMG src=" +:+ quoted "a.png" +:+ " />"] ∧
    heap w2 !! 0 =
      Some {| _tag_name := "IMG"; _self_closing := true;
              _attrs := [("src", VStr "a.png")]; _opened := true |} ∧
    TagContext.__exit__ 0 w2 = (Return tt, w2).
Proof.
  destruct (proj1 C8_void_element_scope __init__ "IMG" [("src", VStr "a.png")])
    as (w1 & w2 & H1 & _ & _ & H2 & H3 & _ & _ & H5 & _ & H4 & _).
  - apply Forall_nil_2.
  - by vm_compute.
  - exists w1, w2. split; [exact H1|]. split; [exact H2|]. split; [exact H3|].
    split; [exact H5|exact H4].
Defined.

(** ** A context that is created and never entered *)

Section Discarded.

Import TagContext Fragment.

Variable n : nat.

Local Abbreviation sh := (shift n).
Local Abbreviation shifted := (λ h h' : handle, h' = shift n h).

Lemma shift_inj h k : sh h = sh k → h = k.
Proof. unfold shift. repeat case_decide; lia. Qed.

Lemma shift_lt h m : n ≤ m → h < m → sh h < S m.
Proof. unfold shift. case_decide; lia. Qed.

Lemma shift_ge h : n ≤ h → sh h = S h.
Proof. unfold shift. case_decide; lia. Qed.

Lemma msim_ret {A} (R : A → A → Prop) a a' : R a a' → msim n R (ret a) (ret a').
Proof. by intros Ha w w' Hw. Qed.

Lemma msim_raise {A} (R : A → A → Prop) e : msim n R (raise e) (raise e).
Proof. by intros w w' Hw. Qed.

Lemma msim_bind {A B} (R : A → A → Prop) (S : B → B → Prop)
    (m m' : M A) (f f' : A → M B) :
  msim n R m m' → (∀ a a', R a a' → msim n S (f a) (f' a')) →
  msim n S (bind m f) (bind m' f').
Proof.
  intros Hm Hf w w' Hw. unfold bind. destruct (Hm w w' Hw) as [Hr Hs].
  destruct (m w) as [[a|e] w1], (m' w') as [[a'|e'] w1']; simpl in *; try done.
  by apply Hf.
Qed.

Lemma msim_deref h : msim n eq (deref h) (deref (sh h)).
Proof.
  intros w w' Hw. unfold deref.
  pose proof Hw as (_ & _ & _ & _ & _ & Hh). rewrite Hh.
  by destruct (heap w !! h).
Qed.

Lemma msim_assign h c : msim n eq (assign h c) (assign (sh h) c).
Proof.
  intros w w' (Hp & Ht & Hc & Hn & Hl & Hh). split; [done|].
  repeat split; simpl; try done; rewrite ?length_insert; try done.
  intros k. destruct (decide (h < length (heap w))) as [Hlt|Hge].
  - assert (sh h < length (heap w')) by (rewrite Hl; by apply shift_lt).
    destruct (decide (k = h)) as [->|Hne].
    + by rewrite !list_lookup_insert_eq.
    + rewrite !list_lookup_insert_ne; [done|congruence|].
      intros ?%shift_inj. congruence.
  - rewrite !list_insert_ge; [done|lia|].
    rewrite Hl, shift_ge; lia.
Qed.

Lemma msim_alloc c : msim n shifted (alloc c) (alloc c).
Proof.
  intros w w' (Hp & Ht & Hc & Hn & Hl & Hh). split.
  { simpl. rewrite Hl. symmetry. by apply shift_ge. }
  repeat split; simpl; try done; rewrite ?length_app; simpl; try lia.
  intros k. destruct (decide (k < length (heap w))) as [Hlt|Hge].
  - rewrite !lookup_app_l; [done|done|].
    rewrite Hl. by apply shift_lt.
  - rewrite shift_ge by lia.
    destruct (decide (k = length (heap w))) as [->|Hne].
    + rewrite <- Hl. by rewrite !list_lookup_middle.
    + rewrite !lookup_ge_None_2; [done|..]; rewrite length_app; simpl; lia.
Qed.

Lemma msim_parts_append s : msim n eq (parts_append s) (parts_append s).
Proof.
  intros w w' (Hp & Ht & Hc & Hn & Hl & Hh). split; [done|].
  repeat split; simpl; rewrite ?Hp; done.
Qed.

Lemma last_map {A B} (f : A → B) (l : list A) : last (map f l) = f <$> last l.
Proof.
  induction l as [|a [|b r] IH]; [done..|]. simpl in *. by rewrite IH.
Qed.

Lemma removelast_map {A B} (f : A → B) (l : list A) :
  removelast (map f l) = map f (removelast l).
Proof.
  induction l as [|a [|b r] IH]; [done..|].
  change (f a :: removelast (map f (b :: r)) = f a :: map f (removelast (b :: r))).
  by rewrite IH.
Qed.

Lemma msim_tag_stack_pop : msim n eq tag_stack_pop tag_stack_pop.
Proof.
  intros w w' (Hp & Ht & Hc & Hn & Hl & Hh). unfold tag_stack_pop.
  rewrite Ht. destruct (last (_tag_stack w)); simpl; [|done].
  split; [done|]. repeat split; simpl; rewrite ?Ht; done.
Qed.

Lemma msim_context_stack_pop : msim n shifted context_stack_pop context_stack_pop.
Proof.
  intros w w' (Hp & Ht & Hc & Hn & Hl & Hh). unfold context_stack_pop.
  rewrite Hc, last_map. destruct (last (_context_stack w)); simpl; [|done].
  split; [done|]. repeat split; simpl; rewrite ?Hc, ?removelast_map; done.
Qed.

Lemma msim_ensure_opened h : msim n eq (_ensure_opened h) (_ensure_opened (sh h)).
Proof.
  unfold _ensure_opened.
  eapply msim_bind; [apply msim_deref|]. intros c ? <-.
  destruct (negb (_opened c)); [|by apply msim_ret].
  eapply msim_bind; [apply msim_assign|]. intros _ _ _. apply msim_parts_append.
Qed.

Lemma msim_open_current : msim n eq open_current open_current.
Proof.
  intros w w' Hw. unfold open_current.
  pose proof Hw as (_ & _ & Hc & _). rewrite Hc, last_map.
  destruct (last (_context_stack w)); simpl; [by apply msim_ensure_opened|done].
Qed.

Lemma msim_add_attr h name value :
  msim n eq (add_attr h name value) (add_attr (sh h) name value).
Proof.
  unfold add_attr. eapply msim_bind; [apply msim_deref|]. intros c ? <-.
  destruct (_opened c); [apply msim_raise|apply msim_assign].
Qed.

Lemma msim_add_class h class_name :
  msim n eq (add_class h class_name) (add_class (sh h) class_name).
Proof.
  unfold add_class. eapply msim_bind; [apply msim_deref|]. intros c ? <-.
  destruct (_opened c); [apply msim_raise|].
  simpl. destruct (truthy _); apply msim_assign.
Qed.

Lemma msim_enter h : msim n shifted (__enter__ h) (__enter__ (sh h)).
Proof.
  unfold __enter__. eapply msim_bind; [apply msim_deref|]. intros c ? <-.
  eapply msim_bind with (R := eq); [|intros; by apply msim_ret].
  destruct (negb (_self_closing c)); [|apply msim_ensure_opened].
  eapply msim_bind with (R := eq).
  - intros w w' (Hp & Ht & Hc & Hn & Hl & Hh). split; [done|].
    repeat split; simpl; rewrite ?Ht; done.
  - intros _ _ _ w w' (Hp & Ht & Hc & Hn & Hl & Hh). split; [done|].
    repeat split; simpl; rewrite ?Hc, ?map_app; done.
Qed.

Lemma msim_exit h : msim n eq (__exit__ h) (__exit__ (sh h)).
Proof.
  unfold __exit__. eapply msim_bind; [apply msim_deref|]. intros c ? <-.
  destruct (negb (_self_closing c)); [|by apply msim_ret].
  eapply msim_bind; [apply msim_ensure_opened|]. intros _ _ _.
  eapply msim_bind; [apply msim_tag_stack_pop|]. intros t ? <-.
  eapply msim_bind; [apply msim_parts_append|]. intros _ _ _.
  eapply msim_bind; [apply msim_context_stack_pop|]. intros; by apply msim_ret.
Qed.

Lemma msim_tag name attrs : msim n shifted (tag name attrs) (tag name attrs).
Proof.
  unfold tag. eapply msim_bind; [apply msim_open_current|]. intros _ _ _.
  apply msim_alloc.
Qed.

Lemma msim_text content : msim n eq (text content) (text content).
Proof.
  unfold text. destruct (negb (is_None content)); [|by apply msim_ret].
  eapply msim_bind; [apply msim_open_current|]. intros _ _ _.
  apply msim_parts_append.
Qed.

Lemma msim_raw content : msim n eq (raw content) (raw content).
Proof.
  unfold raw. destruct (negb (is_None content)); [|by apply msim_ret].
  eapply msim_bind; [apply msim_open_current|]. intros _ _ _.
  apply msim_parts_append.
Qed.

Lemma msim_attr name value : msim n eq (attr name value) (attr name value).
Proof.
  intros w w' Hw. unfold attr.
  pose proof Hw as (_ & _ & Hc & _). rewrite Hc, last_map.
  destruct (last (_context_stack w)); simpl; [by apply msim_add_attr|done].
Qed.

Lemma msim_classes class_name : msim n eq (classes class_name) (classes class_name).
Proof.
  intros w w' Hw. unfold classes.
  pose proof Hw as (_ & _ & Hc & _). rewrite Hc, last_map.
  destruct (last (_context_stack w)); simpl; [by apply msim_add_class|done].
Qed.

Lemma msim_render : msim n eq render render.
Proof.
  intros w w' Hw. unfold render.
  pose proof Hw as (Hp & Ht & _). rewrite Ht, Hp.
  by destruct (_tag_stack w).
Qed.

Lemma msim_clear : msim n eq clear clear.
Proof.
  intros w w' (Hp & Ht & Hc & Hn & Hl & Hh). split; [done|].
  by repeat split.
Qed.

Lemma msim_fragment other : msim n eq (fragment other) (fragment other).
Proof.
  unfold fragment. eapply msim_bind; [apply msim_open_current|]. intros _ _ _.
  eapply msim_bind with (R := eq); [|intros s ? <-; apply msim_parts_append].
  destruct other; [apply msim_render|].
  intros w w' Hw. split; [|done]. simpl. by destruct (fst (render o)).
Qed.

Lemma msim_void {A} (R : A → A → Prop) m m' : msim n R m m' → msim n eq (void m) (void m').
Proof. intros Hm. eapply msim_bind; [done|]. intros; by apply msim_ret. Qed.

Lemma msim_shortcut name attrs :
  msim n eq (with_ (tag name attrs) (λ _, ret tt)) (with_ (tag name attrs) (λ _, ret tt)).
Proof.
  unfold with_. eapply msim_bind; [apply msim_tag|]. intros h ? ->.
  eapply msim_bind; [apply msim_enter|]. intros h' ? -> w w' Hw.
  unfold ret. destruct (msim_exit h' w w' Hw) as [Hr Hs].
  destruct (__exit__ h' w) as [[[]|e] w1], (__exit__ (sh h') w') as [[[]|e'] w1'];
    simpl in *; done.
Qed.

(** One operation on both sides. *)
Lemma msim_run_op o : msim n eq (run_op o) (run_op (shift_op n o)).
Proof.
  destruct o; simpl.
  - eapply msim_void, msim_tag.
  - eapply msim_void, msim_enter.
  - apply msim_exit.
  - apply msim_add_attr.
  - apply msim_add_class.
  - apply msim_text.
  - apply msim_raw.
  - apply msim_attr.
  - apply msim_classes.
  - eapply msim_void, msim_render.
  - eapply msim_void, msim_render.
  - apply msim_clear.
  - apply msim_fragment.
  - apply msim_shortcut.
  - apply msim_shortcut.
  - apply msim_shortcut.
Qed.

Lemma rel_result_eq {A} (r r' : Result A) : rel_result eq r r' → r = r'.
Proof. destruct r, r'; simpl; by intros []. Qed.

(** Whole programs: the same observations, step by step. *)
Lemma sim_trace ops : ∀ w w',
  sim n w w' → trace ops w = trace (map (shift_op n) ops) w'.
Proof.
  induction ops as [|o r IH]; intros w w' Hw; simpl; [done|].
  destruct (msim_run_op o w w' Hw) as [Hr Hs].
  apply rel_result_eq in Hr. unfold step.
  pose proof Hs as (Hp & Ht & _).
  rewrite Hr, Hp, Ht. f_equal. by apply IH.
Qed.

End Discarded.

Section DiscardedTag.

Import TagContext Fragment.

Lemma map_shift_below n (l : list handle) :
  Forall (λ h, h < n) l → map (shift n) l = l.
Proof.
  induction 1 as [|h l Hh _ IH]; [done|]. simpl. rewrite IH.
  unfold shift. by rewrite decide_True.
Qed.

(** The state [tag] leaves when nothing was pending is the first state
    with one more context, which no stack holds. *)
Lemma discarded_tag_sim w c :
  handles_ok w → sim (length (heap w)) w (set_heap (heap w ++ [c]) w).
Proof.
  intros Hw. repeat split; simpl; try done.
  - symmetry. by apply map_shift_below.
  - rewrite length_app. simpl. lia.
  - intros h. unfold shift. case_decide as Hlt.
    + by rewrite lookup_app_l.
    + rewrite !lookup_ge_None_2; [done|lia|]. rewrite length_app. simpl. lia.
Qed.

End DiscardedTag.

(** C4 (as amended): [tag] pushes nothing on either stack.  When no
    context is open, or the innermost one has its opening tag written,
    a call whose result is dropped leaves the parts, the stacks and every
    context as they were: it only adds an unused context to the store,
    and every program run afterwards gives the same observations (the
    handles of contexts created later being one further).  When the
    innermost open context is still pending, the call writes its opening
    tag, and from then on [attr] raises [TagAlreadyOpenedError]. *)
Theorem C4_tag_never_entered (w : World) (name : string) (attrs : Dict.t) :
  handles_ok w →
  let n := length (heap w) in
  ∃ w', Fragment.tag name attrs w = (Return n, w') ∧
    _tag_stack w' = _tag_stack w ∧
    _context_stack w' = _context_stack w ∧
    if current_pending w then
      ∃ h c, last (_context_stack w) = Some h ∧ heap w !! h = Some c ∧
        _opened c = false ∧
        _parts w' = _parts w ++ [TagContext.opening_tag c] ∧
        heap w' !! h = Some (set_opened true c) ∧
        ∀ nm v, Fragment.attr nm v w' = (Raise TagAlreadyOpenedError, w')
    else
      _parts w' = _parts w ∧
      (∀ h c, heap w !! h = Some c → heap w' !! h = Some c) ∧
      (∀ nm v, fst (Fragment.attr nm v w') = fst (Fragment.attr nm v w)) ∧
      (∀ ops, trace (map (shift_op n) ops) w' = trace ops w).
Proof.
  intros Hw n. destruct (current_pending w) eqn:Hp.
  - destruct (current_pending_true w Hp) as (h & c & Hl & Hc & Ho).
    eexists. split; [by apply tag_pending|].
    split; [done|]. split; [done|].
    exists h, c. split; [done|]. split; [done|]. split; [done|]. split; [done|].
    assert (Hlt : h < length (heap w)) by by eapply lookup_lt_Some.
    assert (Hh : (<[h:=set_opened true c]> (heap w) ++ [new_context name attrs]) !! h
                 = Some (set_opened true c)).
    { rewrite lookup_app_l by by rewrite length_insert.
      by apply list_lookup_insert_eq. }
    split; [done|]. intros nm v.
    erewrite attr_current; [|exact Hl].
    eapply add_attr_opened; [exact Hh|done].
  - eexists. split; [by apply tag_settled|].
    split; [done|]. split; [done|]. split; [done|].
    pose proof (discarded_tag_sim w (new_context name attrs) Hw) as Hs.
    split.
    { intros h c Hc. simpl. rewrite lookup_app_l; [done|]. by eapply lookup_lt_Some. }
    split.
    { intros nm v. symmetry. apply rel_result_eq.
      apply (msim_attr _ nm v _ _ Hs). }
    intros ops. symmetry. by apply sim_trace.
Qed.

Lemma C4_tag_never_entered_witness :
  let w := snd (run (h ← Fragment.div []; TagContext.__enter__ h)) in
  ∃ w', Fragment.tag "span" [] w = (Return 1, w') ∧
    _tag_stack w' = ["div"] ∧ _context_stack w' = [0] ∧
    ∃ h c, last [0] = Some h ∧ heap w !! h = Some c ∧ _opened c = false ∧
      _parts w' = _parts w ++ [TagContext.opening_tag c] ∧
      heap w' !! h = Some (set_opened true c) ∧
      ∀ nm v, Fragment.attr nm v w' = (Raise TagAlreadyOpenedError, w').
Proof.
  intros w.
  refine (C4_tag_never_entered w "span" [] _).
  apply Forall_singleton. subst w. vm_compute. lia.
Defined.

(** C4 (as stated) fails: inside a [div] whose opening tag is not yet
    written, a [tag] call whose result is dropped writes [<div>], and
    the [attr] that would have returned now raises. *)
Lemma C4_discarded_tag_opens_parent :
  let w := snd (run (h ← Fragment.div []; TagContext.__enter__ h)) in
  let w' := snd (Fragment.tag "span" [] w) in
  _parts w = [] ∧ _parts w' = ["<div>"] ∧
  fst (Fragment.attr "id" (VStr "x") w) = Return tt ∧
  fst (Fragment.attr "id" (VStr "x") w') = Raise TagAlreadyOpenedError.
Proof. repeat split. Qed.

(** ** The examples of the specification and of the tests *)

Example simple_document :
  fst (run (
    with_ (Fragment.tag "html" []) (λ _,
      with_ (Fragment.tag "head" []) (λ _,
        with_ (Fragment.tag "title" []) (λ _,
          Fragment.text (VStr "Test Page")));;
      with_ (Fragment.tag "body" []) (λ _,
        with_ (Fragment.tag "h1" []) (λ _,
          Fragment.text (VStr "Hello World"))));;
    Fragment.render))
  = Return
      "<html><head><title>Test Page</title></head><body><h1>Hello World</h1></body></html>".
Proof. reflexivity. Qed.

Example attributes_and_self_closing :
  fst (run (
    with_ (Fragment.tag "div"
             [("class_", VStr "container"); ("data_value", VStr "123");
              ("id", VStr "main")]) (λ _,
      Fragment.img [("src", VStr "test.jpg"); ("alt", VStr "Test Image")]);;
    Fragment.render))
  = Return
      ("<div class=" +:+ quoted "container" +:+ " data-value=" +:+ quoted "123" +:+
       " id=" +:+ quoted "main" +:+ "><img src=" +:+ quoted "test.jpg" +:+
       " alt=" +:+ quoted "Test Image" +:+ " /></div>").
Proof. reflexivity. Qed.

Example embedded_fragment :
  let callout :=
    snd (run (with_ (Fragment.div [("class_", VStr "callout")]) (λ _,
                Fragment.text (VStr "Warning")))) in
  fst (run (
    with_ (Fragment.tag "html" []) (λ _,
      with_ (Fragment.tag "body" []) (λ _,
        Fragment.fragment (Fragment.Other callout)));;
    Fragment.render))
  = Return
      ("<html><body><div class=" +:+ quoted "callout" +:+
       ">Warning</div></body></html>").
Proof. reflexivity. Qed.

Example attr_after_content_raises :
  fst (run (
    with_ (Fragment.div []) (λ _,
      Fragment.text (VStr "This opens the tag");;
      Fragment.attr "class" (VStr "test"))))
  = Raise TagAlreadyOpenedError.
Proof. reflexivity. Qed.

Example attr_outside_of_a_tag_raises :
  fst (run (Fragment.attr "class" (VStr "test"))) = Raise NoTagContextError.
Proof. reflexivity. Qed.

Example attribute_value_escaping :
  fst (run (
    with_ (Fragment.div []) (λ _,
      Fragment.attr "title" (VStr "Tom & 'Jerry' <b>"));;
    Fragment.render))
  = Return ("<div title=" +:+ quoted "Tom &amp; &#x27;Jerry&#x27; &lt;b&gt;" +:+ "></div>").
Proof. reflexivity. Qed.

(** The pattern does not match where two matches would share a
    character: the second underscore of [a_b_c] is left for a second
    conversion. *)
Example convert_adjacent_runs :
  _convert_attr_name "a_b_c" = "a-b_c" ∧
  _convert_attr_name "a-b_c" = "a-b-c" ∧
  _convert_attr_name "data_my_value" = "data-my-value".
Proof. repeat split. Qed.

(** * Further properties of the code *)

(** ** Escaping *)

Section Escaping.

Lemma append_cons a (r s : string) : String a r +:+ s = String a (r +:+ s).
Proof. reflexivity. Qed.

Lemma append_nil_l (s : string) : "" +:+ s = s.
Proof. reflexivity. Qed.

Lemma append_nil_r (s : string) : s +:+ "" = s.
Proof.
  induction s as [|a r IH]; [done|]. by rewrite append_cons, IH.
Qed.

Lemma append_assoc (a b c : string) : (a +:+ b) +:+ c = a +:+ (b +:+ c).
Proof.
  induction a as [|x r IH]; [done|]. by rewrite !append_cons, IH.
Qed.

Lemma contains_append d (a b : string) :
  Str.contains d (a +:+ b) = Str.contains d a || Str.contains d b.
Proof.
  induction a as [|x r IH]; [done|].
  rewrite append_cons. simpl. by rewrite IH, orb_assoc.
Qed.

Lemma translate_append f (a b : string) :
  translate f (a +:+ b) = translate f a +:+ translate f b.
Proof.
  induction a as [|x r IH]; [done|].
  rewrite append_cons. simpl. by rewrite IH, append_assoc.
Qed.

Lemma translate_ext f g s : (∀ c, f c = g c) → translate f s = translate g s.
Proof. intros H. induction s as [|a r IH]; simpl; [done|]. by rewrite H, IH. Qed.

Lemma translate_translate f g s :
  translate g (translate f s) = translate (λ c, translate g (f c)) s.
Proof.
  induction s as [|a r IH]; simpl; [done|]. by rewrite translate_append, IH.
Qed.

Lemma replace_translate c r s :
  Str.replace c r s = translate (λ a, if Ascii.eqb a c then r else Str.chr a) s.
Proof. induction s as [|a t IH]; simpl; [done|]. by rewrite IH. Qed.

Lemma translate_contains d f s :
  (∀ c, Str.contains d (f c) = false) → Str.contains d (translate f s) = false.
Proof.
  intros H. induction s as [|a r IH]; simpl; [done|].
  by rewrite contains_append, H, IH.
Qed.

(** [html.escape], one replacement after the other, is the translation
    of each character on its own. *)
Lemma html_escape_translate s quote :
  html_escape s quote = translate (escape_char quote) s.
Proof.
  unfold html_escape.
  destruct quote; rewrite !replace_translate, !translate_translate;
    apply translate_ext; intros c; unfold escape_char;
    (destruct (Ascii.eqb c "&") eqn:E1; [reflexivity|]);
    cbn [translate Str.chr]; rewrite ?append_nil_r;
    (destruct (Ascii.eqb c "<") eqn:E2; [reflexivity|]);
    cbn [translate Str.chr]; rewrite ?append_nil_r;
    (destruct (Ascii.eqb c ">") eqn:E3; [reflexivity|]);
    cbn [translate Str.chr andb]; rewrite ?append_nil_r; [|done].
  destruct (Ascii.eqb c Str.dquote) eqn:E4; [reflexivity|].
  cbn [translate Str.chr]. by rewrite ?append_nil_r.
Qed.

Lemma escape_char_nonempty quote c : escape_char quote c ≠ "".
Proof.
  unfold escape_char.
  repeat (match goal with |- context [if ?b then _ else _] => destruct b end);
    discriminate.
Qed.

(** The translation of a character tells the character: an entity
    begins with an ampersand and no two entities share their second
    character. *)
Lemma escape_char_prefix quote a b (x y : string) :
  escape_char quote a +:+ x = escape_char quote b +:+ y → a = b ∧ x = y.
Proof.
  unfold escape_char.
  destruct (Ascii.eqb a "&") eqn:A1;
  [|destruct (Ascii.eqb a "<") eqn:A2;
  [|destruct (Ascii.eqb a ">") eqn:A3;
  [|destruct (quote && Ascii.eqb a Str.dquote) eqn:A4;
  [|destruct (quote && Ascii.eqb a Str.squote) eqn:A5]]]];
  (destruct (Ascii.eqb b "&") eqn:B1;
  [|destruct (Ascii.eqb b "<") eqn:B2;
  [|destruct (Ascii.eqb b ">") eqn:B3;
  [|destruct (quote && Ascii.eqb b Str.dquote) eqn:B4;
  [|destruct (quote && Ascii.eqb b Str.squote) eqn:B5]]]]);
  rewrite ?andb_true_iff in *;
  repeat match goal with
         | H : _ ∧ _ |- _ => destruct H
         | H : Ascii.eqb _ _ = true |- _ => apply Ascii.eqb_eq in H; subst
         end;
  unfold Str.chr; rewrite ?append_cons, ?append_nil_l;
  intros Heq; simplify_eq; try done;
  rewrite ?Ascii.eqb_refl in *; simpl in *; congruence.
Qed.

Lemma append_eq_nil (a b : string) : a +:+ b = "" → a = "".
Proof. destruct a; [done|]. rewrite append_cons. discriminate. Qed.

Lemma translate_escape_inj quote s1 : ∀ s2,
  translate (escape_char quote) s1 = translate (escape_char quote) s2 → s1 = s2.
Proof.
  induction s1 as [|a r IH]; intros [|b t]; simpl; intros H.
  - done.
  - symmetry in H. apply append_eq_nil in H. by apply escape_char_nonempty in H.
  - apply append_eq_nil in H. by apply escape_char_nonempty in H.
  - apply escape_char_prefix in H as [-> H]. by rewrite (IH _ H).
Qed.

Lemma escape_char_plain quote c :
  Ascii.eqb c "&" = false → Ascii.eqb c "<" = false → Ascii.eqb c ">" = false →
  (quote = true → Ascii.eqb c Str.dquote = false ∧ Ascii.eqb c Str.squote = false) →
  escape_char quote c = Str.chr c.
Proof.
  intros H1 H2 H3 H4. unfold escape_char. rewrite H1, H2, H3.
  destruct quote; [|done]. destruct (H4 eq_refl) as [-> ->]. done.
Qed.

Lemma translate_plain quote s :
  plain_text s = true →
  (quote = true →
   Str.contains Str.dquote s = false ∧ Str.contains Str.squote s = false) →
  translate (escape_char quote) s = s.
Proof.
  unfold plain_text. induction s as [|a r IH]; [done|].
  simpl. rewrite !negb_orb, !andb_true_iff, !negb_true_iff.
  intros [[[A1 R1] [A2 R2]] [A3 R3]] Hq.
  rewrite escape_char_plain; try done.
  - unfold Str.chr. rewrite append_cons, append_nil_l. f_equal. apply IH.
    + by rewrite R1, R2, R3.
    + intros Q. destruct (Hq Q) as [[_ ?]%orb_false_elim [_ ?]%orb_false_elim].
      done.
  - intros Q. destruct (Hq Q) as [[? _]%orb_false_elim [? _]%orb_false_elim].
    done.
Qed.

Lemma escape_char_no_angle quote c :
  Str.contains "<" (escape_char quote c) = false ∧
  Str.contains ">" (escape_char quote c) = false.
Proof.
  unfold escape_char.
  destruct (Ascii.eqb c "&") eqn:E1; [done|].
  destruct (Ascii.eqb c "<") eqn:E2; [done|].
  destruct (Ascii.eqb c ">") eqn:E3; [done|].
  destruct (quote && Ascii.eqb c Str.dquote); [done|].
  destruct (quote && Ascii.eqb c Str.squote); [done|].
  simpl. by rewrite E2, E3.
Qed.

Lemma escape_char_no_quote c :
  Str.contains Str.dquote (escape_char true c) = false ∧
  Str.contains Str.squote (escape_char true c) = false.
Proof.
  unfold escape_char.
  destruct (Ascii.eqb c "&") eqn:E1; [done|].
  destruct (Ascii.eqb c "<") eqn:E2; [done|].
  destruct (Ascii.eqb c ">") eqn:E3; [done|].
  simpl andb.
  destruct (Ascii.eqb c Str.dquote) eqn:E4; [done|].
  destruct (Ascii.eqb c Str.squote) eqn:E5; [done|].
  simpl. by rewrite E4, E5.
Qed.

End Escaping.

(** X1: escaped text holds no angle bracket, whatever the content: text
    written with [text] cannot open or close a tag. *)
Theorem X1_escaped_text_has_no_angle_bracket (content : AttrValue) :
  Str.contains "<" (_escape_text content) = false ∧
  Str.contains ">" (_escape_text content) = false.
Proof.
  unfold _escape_text. destruct (is_None content); [done|].
  rewrite html_escape_translate.
  split; apply translate_contains; intros c; apply escape_char_no_angle.
Qed.

(** X2: an escaped attribute value holds no double quote, no single
    quote and no angle bracket: it cannot end the quoted value it is
    written in. *)
Theorem X2_escaped_attr_value_stays_quoted (value : AttrValue) :
  Str.contains Str.dquote (_escape_attr_value value) = false ∧
  Str.contains Str.squote (_escape_attr_value value) = false ∧
  Str.contains "<" (_escape_attr_value value) = false ∧
  Str.contains ">" (_escape_attr_value value) = false.
Proof.
  unfold _escape_attr_value. destruct (is_None value); [done|].
  rewrite html_escape_translate.
  repeat split; apply translate_contains; intros c;
    solve [apply escape_char_no_quote | apply escape_char_no_angle].
Qed.

(** X3: the replacements of [html.escape], made one after the other on
    the whole string, translate each character once and on its own (the
    ampersand of an entity is not escaped again); so escaping a
    concatenation is concatenating the escaped strings, and in text the
    quote characters stay as they are. *)
Theorem X3_html_escape_character_wise (quote : bool) (a b : string) :
  html_escape a quote = translate (escape_char quote) a ∧
  html_escape (a +:+ b) quote = html_escape a quote +:+ html_escape b quote ∧
  escape_char false Str.dquote = Str.chr Str.dquote ∧
  escape_char false Str.squote = Str.chr Str.squote ∧
  escape_char quote "&" = "&amp;" ∧
  escape_char quote "<" = "&lt;" ∧
  escape_char quote ">" = "&gt;" ∧
  escape_char true Str.dquote = "&quot;" ∧
  escape_char true Str.squote = "&#x27;".
Proof.
  split; [apply html_escape_translate|].
  split; [by rewrite !html_escape_translate, translate_append|].
  by destruct quote.
Qed.

(** X4: [html.escape] loses nothing: two strings with the same escaped
    form are the same string, in text and in attribute values. *)
Theorem X4_html_escape_injective (quote : bool) (s1 s2 : string) :
  html_escape s1 quote = html_escape s2 quote → s1 = s2.
Proof. rewrite !html_escape_translate. apply translate_escape_inj. Qed.

Lemma X4_html_escape_injective_witness :
  "a<b & c" = "a<b & c".
Proof. apply (X4_html_escape_injective true "a<b & c" "a<b & c"). reflexivity. Defined.

(** X5: a string without ampersand and angle bracket is its own escaped
    text, and then [text] and [raw] do the same to the fragment. *)
Theorem X5_plain_text_unchanged (s : string) (w : World) :
  plain_text s = true →
  _escape_text (VStr s) = s ∧
  Fragment.text (VStr s) w = Fragment.raw (VStr s) w.
Proof.
  intros Hs.
  assert (He : _escape_text (VStr s) = s).
  { change (html_escape s false = s). rewrite html_escape_translate.
    by apply translate_plain. }
  split; [done|]. unfold Fragment.text, Fragment.raw. simpl. by rewrite He.
Qed.

Lemma X5_plain_text_witness :
  _escape_text (VStr "Hello 'world'") = "Hello 'world'" ∧
  Fragment.text (VStr "Hello 'world'") __init__ = Fragment.raw (VStr "Hello 'world'") __init__.
Proof. apply (X5_plain_text_unchanged "Hello 'world'" __init__). reflexivity. Defined.

(** ** Conversion of names *)

Section ConversionMore.

Lemma endswith_append_chr (k : string) c : Str.endswith (k +:+ Str.chr c) c = true.
Proof.
  induction k as [|a r IH]; [apply Ascii.eqb_refl|].
  rewrite append_cons. destruct r as [|b t]; [apply Ascii.eqb_refl|].
  exact IH.
Qed.

Lemma drop_last_append_chr (k : string) c : Str.drop_last (k +:+ Str.chr c) = k.
Proof.
  induction k as [|a r IH]; [done|].
  rewrite append_cons. destruct r as [|b t]; [done|].
  simpl in *. by rewrite IH.
Qed.

Lemma same_or_hyphen_refl s : same_or_hyphen s s = true.
Proof.
  induction s as [|a r IH]; [done|]. simpl. by rewrite Ascii.eqb_refl, IH.
Qed.

Lemma same_or_hyphen_cons a r b u :
  same_or_hyphen (String a r) (String b u) =
    (Ascii.eqb a b || Ascii.eqb a Str.underscore && Ascii.eqb b Str.hyphen)
    && same_or_hyphen r u.
Proof. reflexivity. Qed.

Lemma sub_same_or_hyphen_bounded n : ∀ s,
  String.length s ≤ n → same_or_hyphen s (_ATTR_NAME_PATTERN_sub s) = true.
Proof.
  induction n as [|n IH]; intros s Hs.
  { destruct s; [done|simpl in Hs; lia]. }
  destruct s as [|a [|b [|c r]]]; [done| | |].
  - simpl. by rewrite Ascii.eqb_refl.
  - simpl. by rewrite !Ascii.eqb_refl.
  - change (_ATTR_NAME_PATTERN_sub (String a (String b (String c r)))) with
      (if Str.is_word a && Ascii.eqb b Str.underscore && Str.is_word c
       then String a (String Str.hyphen (String c (_ATTR_NAME_PATTERN_sub r)))
       else String a (_ATTR_NAME_PATTERN_sub (String b (String c r)))).
    simpl in Hs.
    destruct (Str.is_word a && Ascii.eqb b Str.underscore && Str.is_word c) eqn:E.
    + apply andb_true_iff in E as [[_ Eb]%andb_true_iff _].
      rewrite !same_or_hyphen_cons, !Ascii.eqb_refl, Eb.
      rewrite orb_true_r. cbn [orb andb]. apply IH. lia.
    + rewrite same_or_hyphen_cons, Ascii.eqb_refl. cbn [orb andb].
      apply IH. simpl. lia.
Qed.

Lemma same_or_hyphen_length s : ∀ t,
  same_or_hyphen s t = true → String.length s = String.length t.
Proof.
  induction s as [|a r IH]; intros [|b u]; simpl; try done.
  intros [_ H]%andb_true_iff. by rewrite (IH _ H).
Qed.

End ConversionMore.

(** X6: a name with one more underscore at its end converts to the name
    without it, whatever the name: [for_] gives [for], [class_] gives
    [class], and the underscores inside such a name are not turned into
    hyphens. *)
Theorem X6_trailing_underscore_is_removed (k : string) :
  _convert_attr_name (k +:+ "_") = k.
Proof.
  assert (Hend : Str.endswith (k +:+ "_") Str.underscore = true)
    by apply (endswith_append_chr k "_").
  assert (Hdrop : Str.drop_last (k +:+ "_") = k)
    by apply (drop_last_append_chr k "_").
  unfold _convert_attr_name. rewrite Hend, Hdrop.
  destruct (String.eqb (k +:+ "_") "class_") eqn:E1.
  { apply String.eqb_eq in E1. rewrite E1 in Hdrop. by rewrite <- Hdrop. }
  destruct (String.eqb (k +:+ "_") "classes") eqn:E2; [|done].
  apply String.eqb_eq in E2. by rewrite E2 in Hend.
Qed.

(** X7: for a name that is no alias of [class] and does not end with an
    underscore, the converted name has the same length and differs from
    the name only where an underscore became a hyphen. *)
Theorem X7_conversion_only_hyphenates (name : string) :
  name ≠ "class_" → name ≠ "classes" →
  Str.endswith name Str.underscore = false →
  same_or_hyphen name (_convert_attr_name name) = true ∧
  String.length (_convert_attr_name name) = String.length name.
Proof.
  intros H1 H2 H3. unfold _convert_attr_name.
  apply String.eqb_neq in H1, H2. rewrite H1, H2, H3. simpl.
  pose proof (sub_same_or_hyphen_bounded _ name (le_n _)) as H.
  split; [done|]. symmetry. by apply same_or_hyphen_length.
Qed.

Lemma X7_conversion_witness :
  same_or_hyphen "data_my_value" (_convert_attr_name "data_my_value") = true ∧
  String.length (_convert_attr_name "data_my_value") = String.length "data_my_value".
Proof.
  apply (X7_conversion_only_hyphenates "data_my_value"); [discriminate..|reflexivity].
Defined.

(** X8: with a cache whose entries are conversions of their keys, the
    cached function answers what the conversion computes, stores that
    answer under the name and touches no other entry; a second call
    gives the same answer and leaves the cache as it is. *)
Theorem X8_conversion_cache_is_transparent
    (name : string) (cache : gmap string string) :
  cache_ok cache →
  let r1 := fst (_convert_attr_name_cached name cache) in
  let c1 := snd (_convert_attr_name_cached name cache) in
  r1 = _convert_attr_name name ∧
  cache_ok c1 ∧
  c1 !! name = Some r1 ∧
  (∀ k, k ≠ name → c1 !! k = cache !! k) ∧
  _convert_attr_name_cached name c1 = (r1, c1).
Proof.
  intros Hc. unfold _convert_attr_name_cached.
  destruct (cache !! name) as [v|] eqn:E; simpl.
  - rewrite E. simpl. rewrite E. repeat split; try done. by apply Hc.
  - rewrite ?lookup_insert_eq. simpl. rewrite ?lookup_insert_eq.
    repeat split; try done.
    + intros k v. destruct (decide (k = name)) as [->|Hne].
      * rewrite lookup_insert_eq. congruence.
      * rewrite lookup_insert_ne by done. apply Hc.
    + intros k Hk. by rewrite lookup_insert_ne.
Qed.

Lemma X8_conversion_cache_witness :
  fst (_convert_attr_name_cached "data_value" ∅) = _convert_attr_name "data_value".
Proof.
  refine (proj1 (X8_conversion_cache_is_transparent "data_value" ∅ _)).
  intros k v. by rewrite lookup_empty.
Defined.

(** ** Attributes set inside a block *)

(** X9: [attr] and [classes] change nothing when they raise; with no
    open context they raise [NoTagContextError], and (the handles of the
    context stack being valid) that error means the context stack is
    empty. *)
Theorem X9_attr_and_classes_raise_without_change
    (w : World) (name : string) (value : AttrValue) (class_name : string) :
  (is_raise (fst (Fragment.attr name value w)) = true →
   snd (Fragment.attr name value w) = w) ∧
  (is_raise (fst (Fragment.classes class_name w)) = true →
   snd (Fragment.classes class_name w) = w) ∧
  (_context_stack w = [] →
   Fragment.attr name value w = (Raise NoTagContextError, w) ∧
   Fragment.classes class_name w = (Raise NoTagContextError, w)) ∧
  (handles_ok w →
   fst (Fragment.attr name value w) = Raise NoTagContextError ∨
   fst (Fragment.classes class_name w) = Raise NoTagContextError →
   _context_stack w = []).
Proof.
  unfold Fragment.attr, Fragment.classes.
  destruct (last (_context_stack w)) as [h|] eqn:El.
  - unfold TagContext.add_attr, TagContext.add_class, bind, deref.
    split; [|split; [|split]].
    + destruct (heap w !! h) as [c|]; [|done]. by destruct (_opened c).
    + destruct (heap w !! h) as [c|]; [|done].
      destruct (_opened c); [done|]. simpl. by destruct (truthy _).
    + intros Hnil. by rewrite Hnil in El.
    + intros Hw. destruct (handles_ok_last w h Hw El) as [c Hc]. rewrite Hc.
      destruct (_opened c); simpl; [by intros [|]|].
      destruct (truthy _); by intros [|].
  - apply last_None in El. by repeat split.
Qed.

Lemma X9_attr_and_classes_witness :
  Fragment.attr "id" (VStr "x") __init__ = (Raise NoTagContextError, __init__) ∧
  Fragment.classes "big" __init__ = (Raise NoTagContextError, __init__).
Proof.
  apply (proj1 (proj2 (proj2
    (X9_attr_and_classes_raise_without_change __init__ "id" (VStr "x") "big")))).
  reflexivity.
Defined.

(** X10: an attribute set on the innermost open context while its
    opening tag is not written is part of that tag: [attr] followed by
    [text] appends the opening tag with the attribute, then the escaped
    text, and after that [attr] raises [TagAlreadyOpenedError]. *)
Theorem X10_attr_before_content_is_rendered
    (w : World) (h : handle) (c : _TagContext)
    (name : string) (value content : AttrValue) :
  last (_context_stack w) = Some h →
  heap w !! h = Some c →
  _opened c = false →
  is_None content = false →
  let c' := set_attrs (Dict.set (_attrs c) name value) c in
  ∃ w', (Fragment.attr name value;; Fragment.text content) w = (Return tt, w') ∧
    _parts w' = _parts w ++ [TagContext.opening_tag c'; _escape_text content] ∧
    _tag_stack w' = _tag_stack w ∧
    _context_stack w' = _context_stack w ∧
    heap w' !! h = Some (set_opened true c') ∧
    ∀ name' value',
      Fragment.attr name' value' w' = (Raise TagAlreadyOpenedError, w').
Proof.
  intros Hl Hc Ho Hn c'.
  assert (Hlt : h < length (heap w)) by by eapply lookup_lt_Some.
  assert (Hc1 : heap (set_heap (<[h:=c']> (heap w)) w) !! h = Some c')
    by by apply list_lookup_insert_eq.
  pose proof (open_current_pending (set_heap (<[h:=c']> (heap w)) w)
                h c' Hl Hc1 Ho) as Hoc.
  assert (Hc2 : <[h:=set_opened true c']> (<[h:=c']> (heap w)) !! h
                = Some (set_opened true c')).
  { apply list_lookup_insert_eq. by rewrite length_insert. }
  subst c'. unfold bind.
  rewrite (attr_current w h name value Hl), (add_attr_pending w h c name value Hc Ho).
  unfold Fragment.text, bind. rewrite Hn.
  change (negb false) with true. cbv beta iota. rewrite Hoc.
  eexists. split; [done|]. simpl.
  split; [by rewrite <- app_assoc|]. split; [done|]. split; [done|]. split; [done|].
  intros name' value'. erewrite attr_current; [|exact Hl].
  eapply add_attr_opened; [exact Hc2|done].
Qed.

Lemma X10_attr_before_content_witness :
  let w := snd (run (h ← Fragment.div []; TagContext.__enter__ h)) in
  ∃ w', (Fragment.attr "id" (VStr "main");; Fragment.text (VStr "x")) w
          = (Return tt, w') ∧
    _parts w' = ["<div id=" +:+ quoted "main" +:+ ">"; "x"].
Proof.
  intros w.
  destruct (X10_attr_before_content_is_rendered w 0
              {| _tag_name := "div"; _self_closing := false;
                 _attrs := []; _opened := false |}
              "id" (VStr "main") (VStr "x") eq_refl eq_refl eq_refl eq_refl)
    as (w' & H1 & H2 & _).
  exists w'. split; [exact H1|exact H2].
Defined.

(** ** What never changes *)

Section Kept.

Import TagContext Fragment.

Variables (h : handle) (c : _TagContext).

Local Abbreviation kept := (same_context h c).

Lemma kept_start w : heap w !! h = Some c → kept w.
Proof. intros Hc. by exists c. Qed.

Lemma kept_heap w w' : heap w' = heap w → kept w → kept w'.
Proof. intros E (c' & ?). exists c'. by rewrite E. Qed.

(** Writing to a pending context keeps every context what it was. *)
Lemma kept_update w h0 c0 x :
  kept w → heap w !! h0 = Some c0 → _opened c0 = false →
  _tag_name x = _tag_name c0 → _self_closing x = _self_closing c0 →
  kept (set_heap (<[h0 := x]> (heap w)) w).
Proof.
  intros (c' & Hc' & Hn & Hs & Ho) Hc0 Hp Hxn Hxs.
  destruct (decide (h0 = h)) as [->|Hne].
  - assert (Some c' = Some c0) as [= ->]
      by (etrans; [symmetry; exact Hc'|exact Hc0]).
    exists x. split.
    { simpl. apply list_lookup_insert_eq. by eapply lookup_lt_Some. }
    split; [congruence|]. split; [congruence|].
    intros Hopen. specialize (Ho Hopen). congruence.
  - exists c'. split; [|done]. simpl. by rewrite list_lookup_insert_ne.
Qed.

Lemma kept_alloc x : preserves kept (alloc x).
Proof.
  intros w (c' & Hc' & ?). exists c'. split; [|done]. simpl.
  rewrite lookup_app_l; [done|]. by eapply lookup_lt_Some.
Qed.

Lemma kept_ensure_opened h0 : preserves kept (_ensure_opened h0).
Proof.
  apply preserves_deref_bind. intros w c0 Hw Hc0.
  destruct (_opened c0) eqn:Ho; simpl; [done|].
  eapply kept_heap; [|by eapply (kept_update w h0 c0 (set_opened true c0))].
  done.
Qed.

Lemma kept_open_current : preserves kept open_current.
Proof.
  intros w Hw. unfold open_current.
  destruct (last (_context_stack w)); [by apply kept_ensure_opened|done].
Qed.

Lemma kept_parts_append s : preserves kept (parts_append s).
Proof. intros w Hw. by eapply kept_heap. Qed.

Lemma kept_add_attr h0 name value : preserves kept (add_attr h0 name value).
Proof.
  apply preserves_deref_bind. intros w c0 Hw Hc0.
  destruct (_opened c0) eqn:Ho; simpl; [done|].
  by eapply (kept_update w h0 c0).
Qed.

Lemma kept_add_class h0 class_name : preserves kept (add_class h0 class_name).
Proof.
  apply preserves_deref_bind. intros w c0 Hw Hc0.
  destruct (_opened c0) eqn:Ho; simpl; [done|].
  destruct (truthy _); simpl; by eapply (kept_update w h0 c0).
Qed.

Lemma kept_tag name attrs : preserves kept (tag name attrs).
Proof.
  apply preserves_bind; [apply kept_open_current|]. intros _. apply kept_alloc.
Qed.

Lemma kept_text content : preserves kept (text content).
Proof.
  unfold text. destruct (negb (is_None content)); [|apply preserves_ret].
  apply preserves_bind; [apply kept_open_current|]. intros _. apply kept_parts_append.
Qed.

Lemma kept_raw content : preserves kept (raw content).
Proof.
  unfold raw. destruct (negb (is_None content)); [|apply preserves_ret].
  apply preserves_bind; [apply kept_open_current|]. intros _. apply kept_parts_append.
Qed.

Lemma kept_attr name value : preserves kept (attr name value).
Proof.
  intros w Hw. unfold attr.
  destruct (last (_context_stack w)); [by apply kept_add_attr|done].
Qed.

Lemma kept_classes class_name : preserves kept (classes class_name).
Proof.
  intros w Hw. unfold classes.
  destruct (last (_context_stack w)); [by apply kept_add_class|done].
Qed.

Lemma kept_render : preserves kept render.
Proof. intros w Hw. unfold render. by destruct (_tag_stack w). Qed.

Lemma kept_fragment other : preserves kept (fragment other).
Proof.
  apply preserves_bind; [apply kept_open_current|]. intros _.
  apply preserves_bind; [|intros s; apply kept_parts_append].
  destruct other; [apply kept_render|]. by intros w Hw.
Qed.

Lemma kept_enter h0 : preserves kept (__enter__ h0).
Proof.
  apply preserves_deref_bind. intros w c0 Hw Hc0.
  unfold bind. destruct (_self_closing c0); simpl; [|done].
  pose proof (kept_ensure_opened h0 w Hw) as Hb.
  by destruct (_ensure_opened h0 w) as [[[]|e] w1].
Qed.

Lemma kept_exit h0 : preserves kept (__exit__ h0).
Proof.
  apply preserves_deref_bind. intros w c0 Hw Hc0.
  destruct (_self_closing c0); simpl; [done|].
  unfold bind.
  pose proof (kept_ensure_opened h0 w Hw) as Hb.
  destruct (_ensure_opened h0 w) as [[[]|e] w1]; simpl in *; [|done].
  unfold tag_stack_pop.
  destruct (last (_tag_stack w1)) as [t|]; [|done].
  unfold parts_append, context_stack_pop, ret. simpl.
  by destruct (last (_context_stack w1)).
Qed.

Lemma kept_shortcut name attrs :
  preserves kept (with_ (tag name attrs) (λ _, ret tt)).
Proof.
  apply preserves_with.
  - apply kept_tag.
  - apply kept_enter.
  - intros h0. apply preserves_ret.
  - apply kept_exit.
Qed.

Lemma kept_step o : preserves kept (run_op o).
Proof.
  destruct o; simpl.
  - apply void_preserves, kept_tag.
  - apply void_preserves, kept_enter.
  - apply kept_exit.
  - apply kept_add_attr.
  - apply kept_add_class.
  - apply kept_text.
  - apply kept_raw.
  - apply kept_attr.
  - apply kept_classes.
  - apply void_preserves, kept_render.
  - apply void_preserves, kept_render.
  - by intros w Hw.
  - apply kept_fragment.
  - apply kept_shortcut.
  - apply kept_shortcut.
  - apply kept_shortcut.
Qed.

End Kept.

(** X13: whatever operations follow, a context keeps its tag name and
    its self-closing flag, and once its opening tag is written it keeps
    everything: its attributes are those that were written, and it is
    never pending again. *)
Theorem X13_contexts_are_kept
    (ops : list Op) (w : World) (h : handle) (c : _TagContext) :
  heap w !! h = Some c →
  ∃ c', heap (exec ops w) !! h = Some c' ∧
        _tag_name c' = _tag_name c ∧
        _self_closing c' = _self_closing c ∧
        (_opened c = true → c' = c).
Proof.
  intros Hc. apply (exec_preserves (same_context h c)).
  - intros o w'. apply kept_step.
  - by apply kept_start.
Qed.

Lemma X13_contexts_are_kept_witness :
  let w := exec [OpTag "div" [("id", VStr "a")]; OpEnter 0; OpText (VStr "x")] __init__ in
  ∃ c', heap (exec [OpAddAttr 0 "id" (VStr "b"); OpClear; OpExit 0] w) !! 0 = Some c' ∧
        _tag_name c' = "div" ∧ _self_closing c' = false ∧
        (true = true →
         c' = {| _tag_name := "div"; _self_closing := false;
                 _attrs := [("id", VStr "a")]; _opened := true |}).
Proof.
  intros w.
  exact (X13_contexts_are_kept [OpAddAttr 0 "id" (VStr "b"); OpClear; OpExit 0]
           w 0 _ eq_refl).
Defined.

Section AppendOnly.

Import TagContext Fragment.

Lemma grows_refl w : grows w w.
Proof. exists []. by rewrite app_nil_r. Qed.

Lemma grows_trans w1 w2 w3 : grows w1 w2 → grows w2 w3 → grows w1 w3.
Proof.
  intros [e1 H1] [e2 H2]. exists (e1 ++ e2). by rewrite H2, H1, app_assoc.
Qed.

Lemma grows_parts w w' : _parts w' = _parts w → grows w w'.
Proof. intros E. exists []. by rewrite app_nil_r. Qed.

Lemma appends_ret {A} (a : A) : appends (ret a).
Proof. intros w. apply grows_refl. Qed.

Lemma appends_bind {A B} (m : M A) (f : A → M B) :
  appends m → (∀ a, appends (f a)) → appends (bind m f).
Proof.
  intros Hm Hf w. unfold bind. specialize (Hm w).
  destruct (m w) as [[a|e] w1]; simpl in *; [|done].
  eapply grows_trans; [done|apply Hf].
Qed.

Lemma appends_deref h : appends (deref h).
Proof. intros w. unfold deref. destruct (heap w !! h); apply grows_refl. Qed.

Lemma appends_parts_append s : appends (parts_append s).
Proof. intros w. by exists [s]. Qed.

Lemma appends_ensure_opened h : appends (_ensure_opened h).
Proof.
  apply appends_bind; [apply appends_deref|]. intros c.
  destruct (negb (_opened c)); [|apply appends_ret].
  apply appends_bind; [by intros w; apply grows_parts|].
  intros _. apply appends_parts_append.
Qed.

Lemma appends_open_current : appends open_current.
Proof.
  intros w. unfold open_current.
  destruct (last (_context_stack w)); [apply appends_ensure_opened|apply grows_refl].
Qed.

Lemma appends_add_attr h name value : appends (add_attr h name value).
Proof.
  apply appends_bind; [apply appends_deref|]. intros c.
  destruct (_opened c); intros w; by apply grows_parts.
Qed.

Lemma appends_add_class h class_name : appends (add_class h class_name).
Proof.
  apply appends_bind; [apply appends_deref|]. intros c.
  destruct (_opened c); [intros w; by apply grows_parts|].
  simpl. destruct (truthy _); intros w; by apply grows_parts.
Qed.

Lemma appends_tag name attrs : appends (tag name attrs).
Proof.
  apply appends_bind; [apply appends_open_current|]. intros _ w.
  by apply grows_parts.
Qed.

Lemma appends_text content : appends (text content).
Proof.
  unfold text. destruct (negb (is_None content)); [|apply appends_ret].
  apply appends_bind; [apply appends_open_current|]. intros _.
  apply appends_parts_append.
Qed.

Lemma appends_raw content : appends (raw content).
Proof.
  unfold raw. destruct (negb (is_None content)); [|apply appends_ret].
  apply appends_bind; [apply appends_open_current|]. intros _.
  apply appends_parts_append.
Qed.

Lemma appends_attr name value : appends (attr name value).
Proof.
  intros w. unfold attr.
  destruct (last (_context_stack w)); [apply appends_add_attr|apply grows_refl].
Qed.

Lemma appends_classes class_name : appends (classes class_name).
Proof.
  intros w. unfold classes.
  destruct (last (_context_stack w)); [apply appends_add_class|apply grows_refl].
Qed.

Lemma appends_render : appends render.
Proof. intros w. unfold render. destruct (_tag_stack w); apply grows_refl. Qed.

Lemma appends_fragment other : appends (fragment other).
Proof.
  apply appends_bind; [apply appends_open_current|]. intros _.
  apply appends_bind; [|intros s; apply appends_parts_append].
  destruct other; [apply appends_render|]. intros w. apply grows_refl.
Qed.

Lemma appends_enter h : appends (__enter__ h).
Proof.
  apply appends_bind; [apply appends_deref|]. intros c.
  apply appends_bind; [|intros; apply appends_ret].
  destruct (negb (_self_closing c)); [|apply appends_ensure_opened].
  apply appends_bind; [|intros _]; intros w; by apply grows_parts.
Qed.

Lemma appends_exit h : appends (__exit__ h).
Proof.
  apply appends_bind; [apply appends_deref|]. intros c.
  destruct (negb (_self_closing c)); [|apply appends_ret].
  apply appends_bind; [apply appends_ensure_opened|]. intros _.
  apply appends_bind.
  { intros w. unfold tag_stack_pop.
    destruct (last (_tag_stack w)); by apply grows_parts. }
  intros t. apply appends_bind; [apply appends_parts_append|]. intros _.
  apply appends_bind; [|intros; apply appends_ret].
  intros w. unfold context_stack_pop.
  destruct (last (_context_stack w)); by apply grows_parts.
Qed.

Lemma appends_with {A} (cm : M handle) (body : handle → M A) :
  appends cm → (∀ h, appends (body h)) → appends (with_ cm body).
Proof.
  intros Hcm Hbody. unfold with_.
  apply appends_bind; [done|]. intros h.
  apply appends_bind; [apply appends_enter|]. intros h' w.
  specialize (Hbody h' w). destruct (body h' w) as [r w1]. simpl in Hbody.
  pose proof (appends_exit h' w1) as Hex.
  destruct (__exit__ h' w1) as [[[]|e] w2]; simpl in *;
    by eapply grows_trans.
Qed.

Lemma appends_void {A} (m : M A) : appends m → appends (void m).
Proof. intros Hm. apply appends_bind; [done|]. intros a. apply appends_ret. Qed.

End AppendOnly.

(** X14: no operation but [clear] rewrites or removes what was written:
    the parts after it are the parts before it, possibly followed by new
    ones; over a program without [clear] the parts only grow.  [clear]
    empties the parts and both stacks. *)
Theorem X14_parts_are_append_only (ops : list Op) (w : World) :
  OpClear ∉ ops →
  (∃ ext, _parts (exec ops w) = _parts w ++ ext) ∧
  _parts (step OpClear w) = [] ∧
  _tag_stack (step OpClear w) = [] ∧
  _context_stack (step OpClear w) = [].
Proof.
  intros Hops. split; [|done]. revert w.
  induction ops as [|o r IH]; intros w; simpl; [apply grows_refl|].
  apply not_elem_of_cons in Hops as [Ho Hr].
  eapply grows_trans; [|by apply IH].
  unfold step. destruct o; simpl; try done.
  - apply appends_void, appends_tag.
  - apply appends_void, appends_enter.
  - apply appends_exit.
  - apply appends_add_attr.
  - apply appends_add_class.
  - apply appends_text.
  - apply appends_raw.
  - apply appends_attr.
  - apply appends_classes.
  - apply appends_void, appends_render.
  - apply appends_void, appends_render.
  - apply appends_fragment.
  - apply appends_with; [apply appends_tag|intros; apply appends_ret].
  - apply appends_with; [apply appends_tag|intros; apply appends_ret].
  - apply appends_with; [apply appends_tag|intros; apply appends_ret].
Qed.

Lemma X14_parts_are_append_only_witness :
  ∃ ext, _parts (exec [OpTag "p" []; OpEnter 0; OpText (VStr "a"); OpExit 0]
                   (set_parts ["<hr />"] __init__))
         = ["<hr />"] ++ ext.
Proof.
  refine (proj1 (X14_parts_are_append_only
            [OpTag "p" []; OpEnter 0; OpText (VStr "a"); OpExit 0]
            (set_parts ["<hr />"] __init__) _)).
  intros H. repeat (apply elem_of_cons in H as [H|H]; [discriminate H|]).
  by apply elem_of_nil in H.
Defined.

(** ** Blocks *)

Section Blocks.

Import TagContext Fragment.

(** Entering the context [tag] just created, for a name that is not
    self-closing: both stacks get one more element. *)
Lemma tag_enter_pushes w name attrs :
  handles_ok w → Str.lower name ∉ SELF_CLOSING →
  ∃ w0, open_current w = (Return tt, w0) ∧
    _tag_stack w0 = _tag_stack w ∧ _context_stack w0 = _context_stack w ∧
    length (heap w0) = length (heap w) ∧
    bind (tag name attrs) __enter__ w =
      (Return (length (heap w)),
       set_context_stack (_context_stack w ++ [length (heap w)])
         (set_tag_stack (_tag_stack w ++ [name])
            (set_heap (heap w0 ++ [new_context name attrs]) w0))).
Proof.
  intros Hw Hn.
  destruct (tag_returns w name attrs Hw) as (w0 & Ho & Ht & Hc & Hl & _ & Htag).
  exists w0. repeat (split; [done|]).
  unfold bind. rewrite Htag. unfold __enter__, bind, deref.
  cbn [heap set_heap]. rewrite <- Hl, list_lookup_middle by done.
  cbn [_self_closing new_context]. rewrite bool_decide_eq_false_2 by done.
  simpl. by rewrite Ht, Hc.
Qed.

(** Leaving the context on top of both stacks. *)
Lemma exit_top w h c ts cs :
  heap w !! h = Some c → _self_closing c = false →
  _tag_stack w = ts ++ [_tag_name c] → _context_stack w = cs ++ [h] →
  ∃ ext,
    __exit__ h w =
      (Return tt,
       set_context_stack cs
         (set_parts (_parts w ++ ext ++ ["</" +:+ _tag_name c +:+ ">"])
            (set_tag_stack ts
               (set_heap (<[h := set_opened true c]> (heap w)) w)))) ∧
    (if _opened c then ext = [] else ext = [opening_tag c]).
Proof.
  intros Hc Hs Ht Hcs. unfold __exit__, bind, deref. rewrite Hc, Hs. simpl.
  destruct (_opened c) eqn:Ho.
  - exists []. split; [|done].
    rewrite (ensure_opened_opened w h c Hc Ho).
    unfold tag_stack_pop. rewrite Ht, last_snoc, removelast_last.
    unfold parts_append, context_stack_pop. simpl.
    rewrite Hcs, last_snoc, removelast_last. unfold ret.
    assert (Hsame : set_opened true c = c) by (destruct c; simpl in *; by subst).
    rewrite Hsame, list_insert_id by exact Hc. by destruct w.
  - exists [opening_tag c]. split; [|done].
    rewrite (ensure_opened_pending w h c Hc Ho).
    unfold tag_stack_pop. simpl. rewrite Ht, last_snoc, removelast_last.
    unfold parts_append, context_stack_pop. simpl.
    rewrite Hcs, last_snoc, removelast_last. unfold ret.
    by rewrite <- app_assoc.
Qed.

End Blocks.

(** X11: a [with] block on a tag that is not self-closing, around a body
    that leaves both stacks as it found them and does not replace the
    context: the block returns or raises what the body does, puts both
    stacks back as they were before the block, and what it writes after
    the body is the opening tag exactly when the context was still
    pending, then the closing tag; the context is opened afterwards. *)
Theorem X11_with_block_closes {A}
    (w : World) (name : string) (attrs : Dict.t) (body : handle → M A) :
  handles_ok w →
  Str.lower name ∉ Fragment.SELF_CLOSING →
  (∀ h, keeps_stacks (body h)) →
  (∀ h c, preserves (same_context h c) (body h)) →
  let h := length (heap w) in
  ∃ w2 w3 w' r ext,
    bind (Fragment.tag name attrs) TagContext.__enter__ w = (Return h, w2) ∧
    _tag_stack w2 = _tag_stack w ++ [name] ∧
    _context_stack w2 = _context_stack w ++ [h] ∧
    body h w2 = (r, w3) ∧
    with_ (Fragment.tag name attrs) body w = (r, w') ∧
    _tag_stack w' = _tag_stack w ∧
    _context_stack w' = _context_stack w ∧
    _parts w' = _parts w3 ++ ext ++ ["</" +:+ name +:+ ">"] ∧
    ∃ c, heap w3 !! h = Some c ∧
      ext = (if _opened c then [] else [TagContext.opening_tag c]) ∧
      heap w' !! h =
        Some {| _tag_name := name; _self_closing := false;
                _attrs := _attrs c; _opened := true |}.
Proof.
  intros Hw Hn Hkeep Hsame h.
  destruct (tag_enter_pushes w name attrs Hw Hn)
    as (w0 & Ho & Ht0 & Hc0 & Hl0 & Hent).
  subst h. set (h := length (heap w)) in *.
  remember (set_context_stack (_context_stack w ++ [h])
              (set_tag_stack (_tag_stack w ++ [name])
                 (set_heap (heap w0 ++ [new_context name attrs]) w0)))
    as w2 eqn:Ew2.
  assert (Hh2 : heap w2 !! h = Some (new_context name attrs)).
  { subst w2 h. simpl. rewrite <- Hl0. by apply list_lookup_middle. }
  assert (Hst2 : _tag_stack w2 = _tag_stack w ++ [name] ∧
                 _context_stack w2 = _context_stack w ++ [h]) by by subst w2.
  destruct Hst2 as [Ht2 Hc2]. clear Ew2.
  destruct (body h w2) as [r w3] eqn:Hbody.
  destruct (Hkeep h w2) as (Ht3 & Hc3 & _). rewrite Hbody in Ht3, Hc3.
  simpl in Ht3, Hc3. rewrite Ht2 in Ht3. rewrite Hc2 in Hc3.
  pose proof (Hsame h _ w2 (kept_start h _ w2 Hh2)) as (c3 & Hh3 & Hn3 & Hs3 & _).
  rewrite Hbody in Hh3. simpl in Hh3.
  assert (Hs3' : _self_closing c3 = false).
  { rewrite Hs3. simpl. by apply bool_decide_eq_false_2. }
  destruct (exit_top w3 h c3 (_tag_stack w) (_context_stack w) Hh3 Hs3')
    as (ext & Hex & Hext).
  { rewrite Ht3. by rewrite Hn3. }
  { done. }
  eexists w2, w3, _, r, ext.
  split; [exact Hent|]. split; [done|]. split; [done|]. split; [done|].
  split.
  { unfold with_. unfold bind in *.
    destruct (Fragment.tag name attrs w) as [[h'|e] w1]; [|done].
    destruct (TagContext.__enter__ h' w1) as [[h''|e] w2']; [|done].
    injection Hent as -> ->. fold h. by rewrite Hbody, Hex. }
  split; [done|]. split; [done|]. split; [simpl; by rewrite Hn3|].
  exists c3. split; [done|].
  split; [revert Hext; destruct (_opened c3); by intros ->|].
  simpl. rewrite list_lookup_insert_eq by by eapply lookup_lt_Some.
  f_equal. simpl in Hn3. unfold set_opened. by rewrite Hn3, Hs3'.
Qed.

Lemma X11_with_block_witness :
  ∃ w2 w3 w' r ext,
    bind (Fragment.tag "p" []) TagContext.__enter__ __init__ = (Return 0, w2) ∧
    _tag_stack w2 = [] ++ ["p"] ∧
    _context_stack w2 = [] ++ [0] ∧
    Fragment.text (VStr "a") w2 = (r, w3) ∧
    with_ (Fragment.tag "p" []) (λ _, Fragment.text (VStr "a")) __init__ = (r, w') ∧
    _tag_stack w' = [] ∧
    _context_stack w' = [] ∧
    _parts w' = _parts w3 ++ ext ++ ["</p>"] ∧
    ∃ c, heap w3 !! 0 = Some c ∧
      ext = (if _opened c then [] else [TagContext.opening_tag c]) ∧
      heap w' !! 0 =
        Some {| _tag_name := "p"; _self_closing := false;
                _attrs := _attrs c; _opened := true |}.
Proof.
  apply (X11_with_block_closes __init__ "p" [] (λ _, Fragment.text (VStr "a"))).
  - apply Forall_nil_2.
  - by vm_compute.
  - intros h. apply keeps_text.
  - intros h c. apply kept_text.
Defined.



(** ** The text that is written *)

Section Output.

Import TagContext Fragment.

Lemma join_cons x l : Str.join "" (x :: l) = x +:+ Str.join "" l.
Proof. destruct l; simpl; [by rewrite append_nil_r|done]. Qed.

Lemma join_app l1 l2 : Str.join "" (l1 ++ l2) = Str.join "" l1 +:+ Str.join "" l2.
Proof.
  induction l1 as [|x l IH]; [done|].
  change ((x :: l) ++ l2) with (x :: (l ++ l2)).
  by rewrite !join_cons, IH, append_assoc.
Qed.

Lemma join_snoc l s : Str.join "" (l ++ [s]) = Str.join "" l +:+ s.
Proof. by rewrite join_app. Qed.

Lemma same_context_trans k c c2 w w' :
  same_context k c w → heap w !! k = Some c2 → same_context k c2 w' →
  same_context k c w'.
Proof.
  intros (c1 & H1 & Hn1 & Hs1 & Ho1) Hc2 (c3 & H3 & Hn3 & Hs3 & Ho3).
  assert (Some c1 = Some c2) as [= ->] by (etrans; [symmetry; exact H1|exact Hc2]).
  exists c3. split; [done|]. split; [congruence|]. split; [congruence|].
  intros Ho. specialize (Ho1 Ho). subst c2. by apply Ho3.
Qed.

Lemma pending_text_eq w w' :
  _context_stack w' = _context_stack w →
  (∀ h, last (_context_stack w) = Some h → heap w' !! h = heap w !! h) →
  pending_text w' = pending_text w.
Proof.
  intros Hc Hh. unfold pending_text. rewrite Hc.
  destruct (last (_context_stack w)) as [h|]; [|done]. by rewrite Hh.
Qed.

(** Forcing the innermost open context writes the pending text, and
    leaves nothing pending. *)
Lemma open_current_spec w :
  handles_ok w →
  ∃ w0, open_current w = (Return tt, w0) ∧
    _tag_stack w0 = _tag_stack w ∧ _context_stack w0 = _context_stack w ∧
    length (heap w0) = length (heap w) ∧
    Str.join "" (_parts w0) = out w ∧
    pending_text w0 = "" ∧
    (∀ h, last (_context_stack w) = Some h →
          ∃ c, heap w0 !! h = Some c ∧ _opened c = true) ∧
    (∀ k c, heap w !! k = Some c → same_context k c w0).
Proof.
  intros Hw. unfold out, pending_text.
  destruct (current_pending w) eqn:Hp.
  - apply current_pending_true in Hp as (h & c & Hl & Hc & Ho).
    assert (Hlt : h < length (heap w)) by by eapply lookup_lt_Some.
    exists (materialized h c w).
    split; [by apply open_current_pending|].
    split; [done|]. split; [done|]. split; [simpl; by rewrite length_insert|].
    rewrite Hl, Hc, Ho. simpl. rewrite Hl, list_lookup_insert_eq by done. simpl.
    split; [by rewrite join_snoc|]. split; [done|].
    split.
    { intros h' [= <-]. eexists. split; [by apply list_lookup_insert_eq|done]. }
    intros k c0 Hc0.
    pose proof (kept_open_current k c0 w (kept_start k c0 w Hc0)) as Hk.
    by rewrite (open_current_pending w h c Hl Hc Ho) in Hk.
  - exists w. split; [by apply open_current_settled|].
    split; [done|]. split; [done|]. split; [done|].
    unfold current_pending in Hp.
    destruct (last (_context_stack w)) as [h|] eqn:El.
    + destruct (handles_ok_last w h Hw El) as [c Hc]. rewrite Hc in *.
      destruct (_opened c) eqn:Ho; [|done].
      rewrite append_nil_r. split; [done|]. split; [done|].
      split; [intros h' [= <-]; by exists c|].
      intros k c0 Hc0. by apply kept_start.
    + rewrite append_nil_r. split; [done|]. split; [done|].
      split; [done|]. intros k c0 Hc0. by apply kept_start.
Qed.

Lemma extends_refl w : handles_ok w → extends w w "".
Proof.
  intros Hw. repeat split; try done.
  - by rewrite append_nil_r.
  - intros k c Hc. by apply kept_start.
Qed.

Lemma extends_trans w1 w2 w3 s1 s2 :
  extends w1 w2 s1 → extends w2 w3 s2 → extends w1 w3 (s1 +:+ s2).
Proof.
  intros (Ht1 & Hc1 & Hh1 & Hl1 & Ho1 & Hk1) (Ht2 & Hc2 & Hh2 & Hl2 & Ho2 & Hk2).
  repeat split; try congruence; try done.
  - lia.
  - by rewrite Ho2, Ho1, append_assoc.
  - intros k c Hc. destruct (Hk1 k c Hc) as (c2 & H2 & ?).
    eapply same_context_trans; [by exists c2|exact H2|by apply Hk2].
Qed.

(** Some text appended after the pending tag was forced. *)
Lemma append_after_open w s :
  handles_ok w →
  ∃ w', bind open_current (λ _, parts_append s) w = (Return tt, w') ∧
        extends w w' s.
Proof.
  intros Hw.
  destruct (open_current_spec w Hw) as (w0 & Ho & Ht & Hc & Hl & Hj & Hp & Htop & Hk).
  exists (set_parts (_parts w0 ++ [s]) w0). unfold bind. rewrite Ho.
  split; [done|]. split; [done|]. split; [done|].
  split. { unfold handles_ok in *. simpl. by rewrite Hl, Hc. }
  split; [simpl; lia|].
  split.
  { unfold out. cbn [_parts set_parts].
    rewrite (pending_text_eq w0 (set_parts (_parts w0 ++ [s]) w0)) by done.
    by rewrite Hp, join_snoc, Hj, append_nil_r. }
  intros k c Hc'. destruct (Hk k c Hc') as (c' & ? & ?). by exists c'.
Qed.

Lemma text_extends w content :
  handles_ok w →
  ∃ w', text content w = (Return tt, w') ∧ extends w w' (_escape_text content).
Proof.
  intros Hw. unfold text, _escape_text.
  destruct (is_None content); simpl.
  - exists w. split; [done|]. by apply extends_refl.
  - by apply append_after_open.
Qed.

Lemma raw_extends w content :
  handles_ok w →
  ∃ w', raw content w = (Return tt, w') ∧
        extends w w' (if is_None content then "" else py_str content).
Proof.
  intros Hw. unfold raw.
  destruct (is_None content); simpl.
  - exists w. split; [done|]. by apply extends_refl.
  - by apply append_after_open.
Qed.

End Output.

(** X15: [text] and [raw] return, leave both stacks as they are, and add
    to the text written so far (the opening tag still pending included)
    exactly the escaped content, or the content as it is for [raw], and
    nothing for [None].  On a fragment with no open tag, [render]
    afterwards returns the former text followed by that content. *)
Theorem X15_text_and_raw_append_their_content (w : World) (content : AttrValue) :
  handles_ok w →
  (∃ w', Fragment.text content w = (Return tt, w') ∧
     _tag_stack w' = _tag_stack w ∧ _context_stack w' = _context_stack w ∧
     out w' = out w +:+ _escape_text content ∧
     (_tag_stack w = [] → _context_stack w = [] →
      Fragment.render w' =
        (Return (Str.join "" (_parts w) +:+ _escape_text content), w'))) ∧
  (∃ w', Fragment.raw content w = (Return tt, w') ∧
     _tag_stack w' = _tag_stack w ∧ _context_stack w' = _context_stack w ∧
     out w' = out w +:+ (if is_None content then "" else py_str content) ∧
     (_tag_stack w = [] → _context_stack w = [] →
      Fragment.render w' =
        (Return (Str.join "" (_parts w) +:+
                 (if is_None content then "" else py_str content)), w'))).
Proof.
  intros Hw.
  assert (Hclosed : ∀ w' s, extends w w' s →
            _tag_stack w = [] → _context_stack w = [] →
            Fragment.render w' = (Return (Str.join "" (_parts w) +:+ s), w')).
  { intros w' s (Ht & Hc & _ & _ & Ho & _) Htw Hcw.
    unfold Fragment.render. rewrite Ht, Htw. f_equal. f_equal.
    unfold out, pending_text in Ho. rewrite Hc, Hcw in Ho. simpl in Ho.
    by rewrite !append_nil_r in Ho. }
  split.
  - destruct (text_extends w content Hw) as (w' & Hr & He).
    exists w'. split; [done|]. pose proof He as (Ht & Hc & _ & _ & Ho & _).
    repeat (split; [done|]). by apply Hclosed.
  - destruct (raw_extends w content Hw) as (w' & Hr & He).
    exists w'. split; [done|]. pose proof He as (Ht & Hc & _ & _ & Ho & _).
    repeat (split; [done|]). by apply Hclosed.
Qed.

Lemma X15_text_and_raw_witness :
  ∃ w', Fragment.text (VStr "a < b") (set_parts ["<hr />"] __init__) = (Return tt, w') ∧
        out w' = out (set_parts ["<hr />"] __init__) +:+ "a &lt; b".
Proof.
  destruct (proj1 (X15_text_and_raw_append_their_content
              (set_parts ["<hr />"] __init__) (VStr "a < b") (Forall_nil_2 _)))
    as (w' & H1 & _ & _ & H2 & _).
  exists w'. split; [exact H1|exact H2].
Defined.

(** X16: embedding another fragment that has no open tag returns, leaves
    both stacks as they are and adds to the text written so far the text
    of the other fragment, as it is; on a fragment with no open tag,
    [render] afterwards returns the two texts one after the other. *)
Theorem X16_embedding_appends_the_rendered_text (w o : World) :
  handles_ok w →
  _tag_stack o = [] →
  ∃ w', Fragment.fragment (Fragment.Other o) w = (Return tt, w') ∧
    _tag_stack w' = _tag_stack w ∧ _context_stack w' = _context_stack w ∧
    out w' = out w +:+ Str.join "" (_parts o) ∧
    (_tag_stack w = [] → _context_stack w = [] →
     Fragment.render w' =
       (Return (Str.join "" (_parts w) +:+ Str.join "" (_parts o)), w')).
Proof.
  intros Hw Ho.
  destruct (append_after_open w (Str.join "" (_parts o)) Hw) as (w' & Hr & He).
  exists w'. split.
  { unfold Fragment.fragment, Fragment.render. rewrite Ho.
    unfold bind in *. simpl.
    destruct (Fragment.open_current w) as [[[]|e] w0]; done. }
  destruct He as (Ht & Hc & _ & _ & Hout & _).
  repeat (split; [done|]). intros Htw Hcw.
  unfold Fragment.render. rewrite Ht, Htw. f_equal. f_equal.
  unfold out, pending_text in Hout. rewrite Hc, Hcw in Hout. simpl in Hout.
  by rewrite !append_nil_r in Hout.
Qed.

Lemma X16_embedding_witness :
  let o := snd (run (with_ (Fragment.tag "b" []) (λ _, Fragment.text (VStr "x")))) in
  ∃ w', Fragment.fragment (Fragment.Other o) __init__ = (Return tt, w') ∧
    _tag_stack w' = [] ∧ _context_stack w' = [] ∧
    out w' = out __init__ +:+ Str.join "" (_parts o) ∧
    (@nil string = [] → @nil handle = [] →
     Fragment.render w' =
       (Return (Str.join "" [] +:+ Str.join "" (_parts o)), w')).
Proof.
  intros o.
  apply (X16_embedding_appends_the_rendered_text __init__ o).
  - apply Forall_nil_2.
  - reflexivity.
Defined.

(** X17: embedding a fragment that has an open tag raises
    [UnclosedTagsError] and appends nothing of it; the innermost open
    context of the receiving fragment has been forced all the same, so
    its opening tag is written and its attributes are closed. *)
Theorem X17_embedding_unclosed_fragment_raises (w o : World) :
  handles_ok w →
  _tag_stack o ≠ [] →
  ∃ w0, Fragment.fragment (Fragment.Other o) w = (Raise UnclosedTagsError, w0) ∧
    Fragment.open_current w = (Return tt, w0) ∧
    _tag_stack w0 = _tag_stack w ∧ _context_stack w0 = _context_stack w ∧
    Str.join "" (_parts w0) = out w ∧
    current_pending w0 = false.
Proof.
  intros Hw Ho.
  destruct (open_current_spec w Hw) as (w0 & Hoc & Ht & Hc & Hl & Hj & Hp & Htop & Hk).
  exists w0. split.
  { unfold Fragment.fragment, Fragment.render, bind. rewrite Hoc.
    destruct (_tag_stack o); done. }
  repeat (split; [done|]).
  unfold current_pending. rewrite Hc.
  destruct (last (_context_stack w)) as [h|]; [|done].
  destruct (Htop h eq_refl) as (c & -> & ->). done.
Qed.

Lemma X17_embedding_unclosed_witness :
  let w := snd (run (h ← Fragment.div []; TagContext.__enter__ h)) in
  ∃ w0, Fragment.fragment (Fragment.Other w) w = (Raise UnclosedTagsError, w0) ∧
    Fragment.open_current w = (Return tt, w0) ∧
    _tag_stack w0 = ["div"] ∧ _context_stack w0 = [0] ∧
    Str.join "" (_parts w0) = out w ∧
    current_pending w0 = false.
Proof.
  intros w. apply (X17_embedding_unclosed_fragment_raises w w).
  - apply Forall_singleton. subst w. vm_compute. lia.
  - discriminate.
Defined.

(** X18: a fragment embedded in itself: with an open tag the call raises
    [UnclosedTagsError]; with both stacks empty it appends its own text,
    so that [render] returns that text twice. *)
Theorem X18_embedding_a_fragment_in_itself (w : World) :
  handles_ok w →
  match _tag_stack w with
  | _ :: _ => fst (Fragment.fragment Fragment.Self w) = Raise UnclosedTagsError
  | [] =>
      _context_stack w = [] →
      ∃ w', Fragment.fragment Fragment.Self w = (Return tt, w') ∧
        Fragment.render w' =
          (Return (Str.join "" (_parts w) +:+ Str.join "" (_parts w)), w')
  end.
Proof.
  intros Hw.
  destruct (open_current_spec w Hw) as (w0 & Hoc & Ht & Hc & Hl & Hj & Hp & Htop & Hk).
  destruct (_tag_stack w) as [|t ts] eqn:Etw.
  - intros Hcw. exists (set_parts (_parts w ++ [Str.join "" (_parts w)]) w).
    unfold Fragment.fragment, Fragment.open_current, Fragment.render, bind.
    rewrite Hcw. simpl. rewrite ?Etw. split; [done|]. simpl. rewrite ?Etw.
    by rewrite join_snoc.
  - unfold Fragment.fragment, Fragment.render, bind. rewrite Hoc, Ht, ?Etw. done.
Qed.

Lemma X18_embedding_in_itself_witness :
  let w := set_parts ["<p>"; "a"; "</p>"] __init__ in
  ∃ w', Fragment.fragment Fragment.Self w = (Return tt, w') ∧
    Fragment.render w' =
      (Return (Str.join "" (_parts w) +:+ Str.join "" (_parts w)), w').
Proof.
  intros w.
  exact (X18_embedding_a_fragment_in_itself w (Forall_nil_2 _) eq_refl).
Defined.

(** ** Nested blocks against the text one expects *)

Section Documents.

Import TagContext Fragment.

Lemma Node_ind (P : Node → Prop) :
  (∀ content, P (Text content)) →
  (∀ content, P (Raw content)) →
  (∀ name attrs children, Forall P children → P (Elem name attrs children)) →
  ∀ n, P n.
Proof.
  intros HT HR HE. fix IH 1. intros [content|content|name attrs children].
  - apply HT.
  - apply HR.
  - apply HE. induction children as [|x r IHr]; constructor; [apply IH|apply IHr].
Qed.

Lemma build_Elem name attrs children :
  build (Elem name attrs children) =
    with_ (tag name attrs) (λ _, build_all children).
Proof. reflexivity. Qed.

Lemma serialize_Elem name attrs children :
  serialize (Elem name attrs children) =
    if bool_decide (Str.lower name ∈ SELF_CLOSING)
    then "<" +:+ name +:+ attr_str attrs +:+ " />" +:+ serialize_all children
    else "<" +:+ name +:+ attr_str attrs +:+ ">" +:+ serialize_all children +:+
         "</" +:+ name +:+ ">".
Proof. reflexivity. Qed.

Lemma kept_snoc k c w x :
  same_context k c w → same_context k c (set_heap (heap w ++ [x]) w).
Proof. apply (kept_alloc k c x w). Qed.

Lemma open_current_top_kept w w0 k :
  (∀ h, last (_context_stack w) = Some h →
        ∃ c, heap w0 !! h = Some c ∧ _opened c = true) →
  last (_context_stack w) = Some k →
  ∀ w', (∀ k' c', heap w0 !! k' = Some c' → same_context k' c' w') →
  ∃ c, heap w' !! k = Some c ∧ _opened c = true.
Proof.
  intros Htop Hl w' Hk. destruct (Htop k Hl) as (c & Hc & Ho).
  destruct (Hk k c Hc) as (c' & Hc' & _ & _ & Hsame).
  exists c. by rewrite Hc', (Hsame Ho).
Qed.

Lemma handles_ok_lt w k :
  handles_ok w → last (_context_stack w) = Some k → k < length (heap w).
Proof.
  intros Hw Hl. destruct (handles_ok_last w k Hw Hl) as [c Hc].
  by eapply lookup_lt_Some.
Qed.

Lemma kept_chain k c w w' :
  same_context k c w →
  (∀ k2 c2, heap w !! k2 = Some c2 → same_context k2 c2 w') →
  same_context k c w'.
Proof.
  intros Hk Hall. pose proof Hk as (c2 & Hc2 & _).
  eapply same_context_trans; [exact Hk|exact Hc2|by apply Hall].
Qed.

(** A block on a self-closing tag: the tag, then what the body writes. *)
Lemma with_void_extends w name attrs (body : M unit) inner :
  handles_ok w → Str.lower name ∈ SELF_CLOSING →
  (∀ w2, handles_ok w2 → ∃ w3, body w2 = (Return tt, w3) ∧ extends w2 w3 inner) →
  ∃ w', with_ (tag name attrs) (λ _, body) w = (Return tt, w') ∧
        extends w w' (("<" +:+ name +:+ attr_str attrs +:+ " />") +:+ inner).
Proof.
  intros Hw Hn Hbody.
  destruct (open_current_spec w Hw)
    as (w0 & Hoc & Ht0 & Hc0 & Hl0 & Hj0 & Hp0 & Htop & Hk0).
  set (cn := new_context name attrs). set (h := length (heap w)).
  assert (Hs : _self_closing cn = true) by by apply bool_decide_eq_true_2.
  assert (Htag : tag name attrs w = (Return h, set_heap (heap w0 ++ [cn]) w0)).
  { unfold tag, bind. rewrite Hoc. unfold alloc. by rewrite Hl0. }
  set (w1 := set_heap (heap w0 ++ [cn]) w0) in *.
  assert (Hh1 : heap w1 !! h = Some cn).
  { simpl. subst h. rewrite <- Hl0. by apply list_lookup_middle. }
  pose proof (enter_self_closing w1 h cn Hh1 Hs eq_refl) as Hen.
  set (w2 := materialized h cn w1) in *.
  assert (Hw2 : handles_ok w2).
  { unfold handles_ok in *. simpl. rewrite length_insert, length_app, Hc0, Hl0.
    eapply Forall_impl; [exact Hw|]. simpl. lia. }
  destruct (Hbody w2 Hw2) as (w3 & Hb & (Ht3 & Hc3 & Hw3 & Hl3 & Ho3 & Hk3)).
  assert (Hh2 : heap w2 !! h = Some (set_opened true cn)).
  { simpl. apply list_lookup_insert_eq. rewrite length_app. simpl. subst h. lia. }
  destruct (Hk3 h _ Hh2) as (c3 & Hh3 & _ & Hs3 & _).
  assert (Hex : __exit__ h w3 = (Return tt, w3)).
  { apply (exit_self_closing w3 h c3 Hh3). by rewrite Hs3. }
  exists w3. split.
  { unfold with_, bind. by rewrite Htag, Hen, Hb, Hex. }
  split; [by rewrite Ht3|]. split; [by rewrite Hc3|]. split; [done|].
  split.
  { etrans; [|exact Hl3]. simpl. rewrite length_insert, length_app, Hl0. lia. }
  split.
  { assert (Hp2 : pending_text w2 = "").
    { unfold pending_text. simpl. rewrite Hc0.
      destruct (last (_context_stack w)) as [k|] eqn:El; [|done].
      destruct (Htop k eq_refl) as (ck & Hck & Hok).
      pose proof (handles_ok_lt w k Hw El) as Hlt.
      rewrite list_lookup_insert_ne by (subst h; lia).
      rewrite lookup_app_l by lia. unfold handle in *. by rewrite Hck, Hok. }
    rewrite Ho3. unfold out at 1. rewrite Hp2, append_nil_r. simpl.
    rewrite join_snoc, Hj0, append_assoc. f_equal. f_equal.
    unfold opening_tag. by rewrite Hs. }
  intros k c Hc.
  eapply kept_chain; [|exact Hk3].
  pose proof (kept_enter k c h w1 (kept_snoc k c w0 cn (Hk0 k c Hc))) as Hk2.
  by rewrite Hen in Hk2.
Qed.

(** A block on any other tag: the opening tag, what the body writes,
    the closing tag. *)
Lemma with_elem_extends w name attrs (body : M unit) inner :
  handles_ok w → Str.lower name ∉ SELF_CLOSING →
  (∀ w2, handles_ok w2 → ∃ w3, body w2 = (Return tt, w3) ∧ extends w2 w3 inner) →
  ∃ w', with_ (tag name attrs) (λ _, body) w = (Return tt, w') ∧
        extends w w' (("<" +:+ name +:+ attr_str attrs +:+ ">") +:+ inner +:+
                      ("</" +:+ name +:+ ">")).
Proof.
  intros Hw Hn Hbody.
  destruct (open_current_spec w Hw)
    as (w0 & Hoc & Ht0 & Hc0 & Hl0 & Hj0 & Hp0 & Htop & Hk0).
  destruct (tag_enter_pushes w name attrs Hw Hn) as (w0' & Hoc' & _ & _ & _ & Hent).
  assert (w0' = w0) as -> by (rewrite Hoc in Hoc'; by injection Hoc').
  set (cn := new_context name attrs) in *. set (h := length (heap w)) in *.
  assert (Hsn : _self_closing cn = false) by by apply bool_decide_eq_false_2.
  remember (set_context_stack (_context_stack w ++ [h])
              (set_tag_stack (_tag_stack w ++ [name])
                 (set_heap (heap w0 ++ [cn]) w0))) as w2 eqn:Ew2.
  assert (Hf2 : _tag_stack w2 = _tag_stack w ++ [name] ∧
                _context_stack w2 = _context_stack w ++ [h] ∧
                heap w2 = heap w0 ++ [cn] ∧ _parts w2 = _parts w0) by by subst w2.
  destruct Hf2 as (Ht2 & Hc2 & Hh2 & Hp2). clear Ew2.
  assert (Hcn : heap w2 !! h = Some cn).
  { rewrite Hh2. subst h. rewrite <- Hl0. by apply list_lookup_middle. }
  assert (Hw2 : handles_ok w2).
  { unfold handles_ok in *. rewrite Hc2, Hh2, length_app, Hl0. simpl.
    apply Forall_app. split.
    - eapply Forall_impl; [exact Hw|]. simpl. lia.
    - apply Forall_singleton. subst h. lia. }
  assert (Hout2 : out w2 = out w +:+ opening_tag cn).
  { unfold out, pending_text. rewrite Hc2, last_snoc. unfold handle in *.
    by rewrite Hcn, Hp2, Hj0. }
  destruct (Hbody w2 Hw2) as (w3 & Hb & (Ht3 & Hc3 & Hw3 & Hl3 & Ho3 & Hk3)).
  destruct (Hk3 h cn Hcn) as (c3 & Hh3 & Hn3 & Hs3 & _).
  destruct (exit_top w3 h c3 (_tag_stack w) (_context_stack w) Hh3)
    as (ext & Hex & Hext).
  { by rewrite Hs3. }
  { by rewrite Ht3, Ht2, Hn3. }
  { by rewrite Hc3, Hc2. }
  assert (Hp3 : pending_text w3 = Str.join "" ext).
  { unfold pending_text. rewrite Hc3, Hc2, last_snoc. unfold handle in *.
    rewrite Hh3. destruct (_opened c3); by subst ext. }
  eexists. split.
  { unfold with_. unfold bind in *.
    destruct (tag name attrs w) as [[h'|e] w1]; [|done].
    destruct (__enter__ h' w1) as [[h''|e] w2']; [|done].
    injection Hent as -> ->. by rewrite Hb, Hex. }
  split; [done|]. split; [done|].
  assert (Hlen : length (heap w) < length (heap w3)).
  { eapply Nat.lt_le_trans; [|exact Hl3]. rewrite Hh2, length_app, Hl0. simpl. lia. }
  split.
  { unfold handles_ok in *. simpl. rewrite length_insert.
    eapply Forall_impl; [exact Hw|]. simpl. lia. }
  split; [simpl; rewrite length_insert; lia|].
  split.
  { assert (Hpend : pending_text
        (set_context_stack (_context_stack w)
           (set_parts (_parts w3 ++ ext ++ ["</" +:+ _tag_name c3 +:+ ">"])
              (set_tag_stack (_tag_stack w)
                 (set_heap (<[h:=set_opened true c3]> (heap w3)) w3)))) = "").
    { unfold pending_text. simpl.
      destruct (last (_context_stack w)) as [k|] eqn:El; [|done].
      destruct (Htop k eq_refl) as (ck & Hck & Hok).
      pose proof (handles_ok_lt w k Hw El) as Hlt.
      assert (Hck2 : heap w2 !! k = Some ck).
      { rewrite Hh2, lookup_app_l by lia. exact Hck. }
      destruct (Hk3 k ck Hck2) as (ck3 & Hck3 & _ & _ & Hsame).
      rewrite (Hsame Hok) in Hck3.
      rewrite list_lookup_insert_ne by (subst h; lia).
      unfold handle in *. by rewrite Hck3, Hok. }
    unfold out at 1. replace (pending_text _) with "" by (symmetry; exact Hpend).
    rewrite append_nil_r. simpl.
    rewrite !join_app. simpl. rewrite <- Hp3, <- append_assoc.
    change (Str.join "" (_parts w3) +:+ pending_text w3) with (out w3).
    rewrite Ho3, Hout2, Hn3. unfold opening_tag. rewrite Hsn. simpl.
    by rewrite !append_assoc. }
  intros k c Hc.
  pose proof (kept_snoc k c w0 cn (Hk0 k c Hc)) as Hk1.
  assert (Hk2 : same_context k c w2)
    by exact (kept_heap k c (set_heap (heap w0 ++ [cn]) w0) w2 Hh2 Hk1).
  pose proof (kept_exit k c h w3 (kept_chain k c w2 w3 Hk2 Hk3)) as Hk5.
  by rewrite Hex in Hk5.
Qed.

Lemma build_all_extends children :
  Forall (λ n, ∀ w, handles_ok w →
            ∃ w', build n w = (Return tt, w') ∧ extends w w' (serialize n))
         children →
  ∀ w, handles_ok w →
    ∃ w', build_all children w = (Return tt, w') ∧
          extends w w' (serialize_all children).
Proof.
  induction 1 as [|x r Hx _ IH]; intros w Hw.
  - exists w. split; [done|]. by apply extends_refl.
  - destruct (Hx w Hw) as (w1 & Hb1 & He1).
    pose proof He1 as (_ & _ & Hw1 & _).
    destruct (IH w1 Hw1) as (w2 & Hb2 & He2).
    exists w2. split.
    + simpl. unfold bind. by rewrite Hb1.
    + simpl. by eapply extends_trans.
Qed.

Lemma build_extends n : ∀ w,
  handles_ok w →
  ∃ w', build n w = (Return tt, w') ∧ extends w w' (serialize n).
Proof.
  induction n as [content|content|name attrs children IH] using Node_ind;
    intros w Hw.
  - by apply text_extends.
  - by apply raw_extends.
  - rewrite build_Elem, serialize_Elem.
    pose proof (build_all_extends children IH) as Hall.
    destruct (decide (Str.lower name ∈ SELF_CLOSING)) as [Hn|Hn].
    + rewrite bool_decide_eq_true_2 by done.
      destruct (with_void_extends w name attrs _ _ Hw Hn Hall) as (w' & Hr & He).
      exists w'. split; [done|]. by rewrite !append_assoc in He.
    + rewrite bool_decide_eq_false_2 by done.
      destruct (with_elem_extends w name attrs _ _ Hw Hn Hall) as (w' & Hr & He).
      exists w'. split; [done|]. by rewrite !append_assoc in He.
Qed.

End Documents.

(** X19: a document written with nested [with] blocks, [text] and [raw]
    renders as the text one expects of it: for each block the opening
    tag with the attributes, the content in order, the closing tag (for a
    self-closing name the [ />] tag, followed by what the block wrote).
    Every call returns; run anywhere, such a piece of program leaves both
    stacks as they were and adds that text to the text written so far. *)
Theorem X19_nested_blocks_render_as_expected (document : list Node) :
  fst (run (build_all document;; Fragment.render))
    = Return (serialize_all document) ∧
  ∀ w, handles_ok w →
    ∃ w', build_all document w = (Return tt, w') ∧
      _tag_stack w' = _tag_stack w ∧
      _context_stack w' = _context_stack w ∧
      out w' = out w +:+ serialize_all document.
Proof.
  assert (Hall : ∀ w, handles_ok w →
            ∃ w', build_all document w = (Return tt, w') ∧
                  extends w w' (serialize_all document)).
  { apply build_all_extends. apply Forall_forall. intros n _. apply build_extends. }
  split.
  - destruct (Hall __init__ (Forall_nil_2 _)) as (w' & Hb & (Ht & Hc & _ & _ & Ho & _)).
    unfold run, bind. rewrite Hb. unfold Fragment.render. rewrite Ht. simpl.
    f_equal. unfold out, pending_text in Ho. rewrite Hc in Ho. simpl in Ho.
    by rewrite append_nil_r in Ho.
  - intros w Hw. destruct (Hall w Hw) as (w' & Hb & (Ht & Hc & _ & _ & Ho & _)).
    by exists w'.
Qed.

Lemma X19_nested_blocks_witness :
  let document :=
    [Elem "div" [("class_", VStr "box")]
       [Text (VStr "a & b"); Elem "br" [] []; Elem "p" [] []]] in
  ∃ w', build_all document __init__ = (Return tt, w') ∧
    _tag_stack w' = [] ∧ _context_stack w' = [] ∧
    out w' = out __init__ +:+ serialize_all document.
Proof.
  intros document.
  exact (proj2 (X19_nested_blocks_render_as_expected document)
           __init__ (Forall_nil_2 _)).
Defined.

Example serialize_example :
  serialize_all
    [Elem "div" [("class_", VStr "box")]
       [Text (VStr "a & b"); Elem "br" [] []; Elem "p" [] []]]
  = "<div class=" +:+ quoted "box" +:+ ">a &amp; b<br /><p></p></div>".
Proof. reflexivity. Qed.

(** X20: whatever writes content closes the attributes of the innermost
    open context: after [text] or [raw] with a content other than
    [None], after [tag], and after [fragment] (even when it raises),
    [attr] raises [TagAlreadyOpenedError]. *)
Theorem X20_content_closes_the_attributes
    (w : World) (h : handle) (content : AttrValue)
    (tag_name : string) (attrs : Dict.t) (other : Fragment.FragmentRef)
    (name : string) (value : AttrValue) :
  handles_ok w →
  last (_context_stack w) = Some h →
  is_None content = false →
  fst (Fragment.attr name value (snd (Fragment.text content w)))
    = Raise TagAlreadyOpenedError ∧
  fst (Fragment.attr name value (snd (Fragment.raw content w)))
    = Raise TagAlreadyOpenedError ∧
  fst (Fragment.attr name value (snd (Fragment.tag tag_name attrs w)))
    = Raise TagAlreadyOpenedError ∧
  fst (Fragment.attr name value (snd (Fragment.fragment other w)))
    = Raise TagAlreadyOpenedError.
Proof.
  intros Hw Hl Hn.
  destruct (open_current_spec w Hw)
    as (w0 & Hoc & Ht0 & Hc0 & Hl0 & Hj0 & Hp0 & Htop & Hk0).
  destruct (Htop h Hl) as (c & Hc & Ho).
  assert (Hraise : ∀ w', _context_stack w' = _context_stack w0 →
            heap w' !! h = Some c →
            fst (Fragment.attr name value w') = Raise TagAlreadyOpenedError).
  { intros w' Hcs Hh. rewrite (attr_current w' h name value).
    - by rewrite (add_attr_opened w' h c name value Hh Ho).
    - by rewrite Hcs, Hc0. }
  assert (Hlt : h < length (heap w0)) by by eapply lookup_lt_Some.
  unfold Fragment.text, Fragment.raw, Fragment.tag, Fragment.fragment, bind.
  rewrite Hn. change (negb false) with true. cbv beta iota.
  rewrite !Hoc. simpl.
  split; [by apply Hraise|]. split; [by apply Hraise|].
  split; [apply Hraise; [done|]; simpl; by rewrite lookup_app_l|].
  destruct other as [|o]; unfold Fragment.render.
  - destruct (_tag_stack w0); by apply Hraise.
  - simpl. destruct (_tag_stack o); by apply Hraise.
Qed.

Lemma X20_content_closes_witness :
  let w := snd (run (h ← Fragment.div []; TagContext.__enter__ h)) in
  fst (Fragment.attr "id" (VStr "x") (snd (Fragment.text (VStr "") w)))
    = Raise TagAlreadyOpenedError.
Proof.
  intros w.
  refine (proj1 (X20_content_closes_the_attributes w 0 (VStr "") "p" []
                   Fragment.Self "id" (VStr "x") _ eq_refl eq_refl)).
  apply Forall_singleton. subst w. vm_compute. lia.
Defined.

(** ** The two stacks, element by element *)

Section StacksAgree.

Import TagContext Fragment.

Lemma agree_frame w w' :
  stacks_agree w → frame_ok w w' →
  (∀ k c, heap w !! k = Some c → same_context k c w') →
  stacks_agree w'.
Proof.
  unfold stacks_agree. intros Hw (Ht & Hc & _) Hk. rewrite Ht, Hc.
  eapply Forall2_impl; [exact Hw|]. simpl.
  intros t h (c & Hh & Hn & Hs).
  destruct (Hk h c Hh) as (c' & Hh' & Hn' & Hs' & _).
  exists c'. split; [done|]. split; congruence.
Qed.

Lemma agree_keeps {A} (m : M A) :
  keeps_stacks m → (∀ k c, preserves (same_context k c) m) →
  preserves stacks_agree m.
Proof.
  intros Hkeep Hkept w Hw. eapply agree_frame; [done|apply Hkeep|].
  intros k c Hc. by apply Hkept, kept_start.
Qed.

Lemma Forall2_removelast {A B} (P : A → B → Prop) l k :
  Forall2 P l k → Forall2 P (removelast l) (removelast k).
Proof.
  induction 1 as [|x y l k Hxy Hlk IH]; [constructor|].
  destruct Hlk as [|x' y' l k Hxy' Hlk]; [constructor|].
  change (Forall2 P (x :: removelast (x' :: l)) (y :: removelast (y' :: k))).
  by constructor.
Qed.

Lemma agree_enter h : preserves stacks_agree (__enter__ h).
Proof.
  intros w Hw. unfold __enter__, bind, deref.
  destruct (heap w !! h) as [c|] eqn:Hc; [|done].
  destruct (_self_closing c) eqn:Hs; simpl.
  - pose proof (agree_keeps _ (keeps_ensure_opened h)
                  (λ k c0, kept_ensure_opened k c0 h) w Hw) as Hb.
    by destruct (_ensure_opened h w) as [[[]|e] w1].
  - unfold stacks_agree in *. simpl. apply Forall2_app; [done|].
    constructor; [|constructor]. by exists c.
Qed.

Lemma agree_exit h : preserves stacks_agree (__exit__ h).
Proof.
  intros w Hw. unfold __exit__, bind, deref.
  destruct (heap w !! h) as [c|] eqn:Hc; [|done].
  destruct (_self_closing c) eqn:Hs; simpl; [done|].
  pose proof (agree_keeps _ (keeps_ensure_opened h)
                (λ k c0, kept_ensure_opened k c0 h) w Hw) as Hb.
  destruct (_ensure_opened h w) as [[[]|e] w1]; simpl in *; [|done].
  unfold tag_stack_pop.
  destruct (last (_tag_stack w1)) as [t|] eqn:Et; [|done].
  unfold parts_append, context_stack_pop, ret. simpl.
  unfold stacks_agree in *.
  destruct (last (_context_stack w1)) as [x|] eqn:Ec; simpl.
  - by apply Forall2_removelast.
  - apply last_None in Ec. rewrite Ec in *.
    apply Forall2_nil_inv_r in Hb. by rewrite Hb in Et.
Qed.

Lemma agree_shortcut name attrs :
  preserves stacks_agree (with_ (tag name attrs) (λ _, ret tt)).
Proof.
  apply preserves_with.
  - apply agree_keeps; [apply keeps_tag|intros; apply kept_tag].
  - apply agree_enter.
  - intros h. apply preserves_ret.
  - apply agree_exit.
Qed.

Lemma agree_step o : preserves stacks_agree (run_op o).
Proof.
  destruct o; simpl.
  - apply void_preserves, agree_keeps; [apply keeps_tag|intros; apply kept_tag].
  - apply void_preserves, agree_enter.
  - apply agree_exit.
  - apply agree_keeps; [apply keeps_add_attr|intros; apply kept_add_attr].
  - apply agree_keeps; [apply keeps_add_class|intros; apply kept_add_class].
  - apply agree_keeps; [apply keeps_text|intros; apply kept_text].
  - apply agree_keeps; [apply keeps_raw|intros; apply kept_raw].
  - apply agree_keeps; [apply keeps_attr|intros; apply kept_attr].
  - apply agree_keeps; [apply keeps_classes|intros; apply kept_classes].
  - apply void_preserves, agree_keeps; [apply keeps_render|intros; apply kept_render].
  - apply void_preserves, agree_keeps; [apply keeps_render|intros; apply kept_render].
  - intros w _. constructor.
  - apply agree_keeps; [apply keeps_fragment|intros; apply kept_fragment].
  - apply agree_shortcut.
  - apply agree_shortcut.
  - apply agree_shortcut.
Qed.

End StacksAgree.

(** X21: in every state a program reaches, the two stacks tell of the
    same open elements: the name at each height of the tag stack is the
    name of the context at that height of the context stack, which is
    not self-closing; so the name a scope exit pops for the closing tag
    is the name of the innermost open context. *)
Theorem X21_stacks_hold_the_same_elements (ops : list Op) :
  stacks_agree (exec ops __init__) ∧
  ∀ t, last (_tag_stack (exec ops __init__)) = Some t →
    ∃ h c, last (_context_stack (exec ops __init__)) = Some h ∧
           heap (exec ops __init__) !! h = Some c ∧
           _tag_name c = t ∧ _self_closing c = false.
Proof.
  assert (Ha : stacks_agree (exec ops __init__)).
  { apply exec_preserves; [intros o w; apply agree_step|constructor]. }
  split; [done|]. intros t Ht.
  unfold stacks_agree in Ha.
  apply last_Some in Ht as (ts & Ets). rewrite Ets in Ha.
  apply Forall2_app_inv_l in Ha as (cs & cs1 & _ & H1 & Ecs).
  apply Forall2_cons_inv_l in H1 as (h & cs2 & (c & Hc & Hn & Hs) & H2 & ->).
  apply Forall2_nil_inv_l in H2 as ->.
  exists h, c. rewrite Ecs, last_snoc. done.
Qed.

Lemma X21_stacks_witness :
  ∃ h c,
    last (_context_stack (exec [OpTag "ul" []; OpEnter 0; OpTag "li" []; OpEnter 1] __init__))
      = Some h ∧
    heap (exec [OpTag "ul" []; OpEnter 0; OpTag "li" []; OpEnter 1] __init__) !! h
      = Some c ∧
    _tag_name c = "li" ∧ _self_closing c = false.
Proof.
  apply (proj2 (X21_stacks_hold_the_same_elements
                  [OpTag "ul" []; OpEnter 0; OpTag "li" []; OpEnter 1]) "li").
  reflexivity.
Defined.
